(** * clipstitch: the sequential capture pipeline of [src/utils/videoProcessor.ts]

    A shallow embedding of [stitchVideos] and [playVideoToCanvas].

    The program is event driven: it installs handlers on host objects (a
    video element, a media recorder) and awaits promises that those handlers
    settle.  The host is modelled by a record of answers and event scripts;
    every call the program makes on a host object is recorded, in program
    order, in a trace of [Effect]s.  An asynchronous function returns an
    [Outcome] (resolved, rejected with a thrown value, or still pending when
    the host delivers nothing more) together with the trace it produced. *)

From Stdlib Require Import ZArith Floats.
From Stdlib Require Import String DecimalString List Bool Arith Lia.
Import ListNotations.

Open Scope string_scope.
Open Scope list_scope.

(** ** src/constants.ts *)

Definition CANVAS_WIDTH : Z := 1280.
Definition CANVAS_HEIGHT : Z := 720.
Definition VIDEO_FRAME_RATE : Z := 30.

(** ** JavaScript numbers

    The arithmetic of [drawFrame] is written over the operations it uses.
    [JsNumber float] is what the program runs on: IEEE 754 binary64, in
    which every statement about the letterbox is made. *)

Class JsNumber (num : Type) := {
  ofZ : Z -> num;
  nsub : num -> num -> num;
  nmul : num -> num -> num;
  ndiv : num -> num -> num;
  Math_min : num -> num -> num
}.

(** [Math.min] on two doubles: NaN if either argument is NaN, and -0 is
    smaller than +0. *)
Definition float_min (a b : float) : float :=
  if (PrimFloat.is_nan a || PrimFloat.is_nan b)%bool then nan
  else if PrimFloat.ltb a b then a
  else if PrimFloat.ltb b a then b
  else if PrimFloat.get_sign a then a else b.

#[export] Instance float_number : JsNumber float := {
  ofZ z := PrimFloat.of_uint63 (Uint63.of_Z z);
  nsub := PrimFloat.sub;
  nmul := PrimFloat.mul;
  ndiv := PrimFloat.div;
  Math_min := float_min
}.

(** ** FrameCompositor: the geometry of [drawFrame] *)

(** The four numbers handed to [ctx.drawImage(video, x, y, w, h)]. *)
Record Rect (num : Type) := mkRect { rx : num; ry : num; rw : num; rh : num }.
Arguments mkRect {num}.
Arguments rx {num}.
Arguments ry {num}.
Arguments rw {num}.
Arguments rh {num}.

Section Geometry.
Context {num : Type} `{JsNumber num}.

(** Lines 154-158 of videoProcessor.ts. *)
Definition drawRect (width height videoWidth videoHeight : num) : Rect num :=
    let scale := Math_min (ndiv width videoWidth) (ndiv height videoHeight) in
    let w := nmul videoWidth scale in
    let h := nmul videoHeight scale in
    let x := ndiv (nsub width w) (ofZ 2) in
    let y := ndiv (nsub height h) (ofZ 2) in
    mkRect x y w h.
End Geometry.

(** [drawRect] on integer target and frame sizes. *)
Definition frameRect (num : Type) `{JsNumber num} (W Ht vw vh : Z) : Rect num :=
  drawRect (ofZ W) (ofZ Ht) (ofZ vw) (ofZ vh).

(** ** Data model ([src/types.ts] and the values the host hands over) *)

Record File := { fileName : string; fileType : string }.

Record VideoFile := {
  id : string;
  file : File;
  previewUrl : string;
  duration : Z;
  name : string
}.

Record ProcessingProgress := {
  currentClipIndex : nat;
  totalClips : nat;
  statusMessage : string
}.

(** Encoded data: a [Blob] is its bytes and its media type; [size] is the
    number of bytes. *)
Record Blob := { blobData : list Byte.byte; blobType : string }.

Definition size (b : Blob) : nat := length (blobData b).

(** [new Blob(parts, { type })]: the parts' bytes, in order. *)
Definition newBlob (parts : list Blob) (type : string) : Blob :=
  {| blobData := concat (map blobData parts); blobType := type |}.

(** Values that are thrown or used to reject a promise.  The last
    constructor is the wrapper named by the specification; no function of
    the source builds it. *)
Inductive JsValue :=
| JsError (message : string)
| MediaErrorEvent (code : nat)
| DOMException (exnName : string)
| ClipProcessingError (clipIndex : nat) (cause : JsValue).

(** How an awaited promise stands when the host has nothing more to
    deliver. *)
Inductive Outcome (A : Type) :=
| Resolved (a : A)
| Rejected (e : JsValue)
| Pending.
Arguments Resolved {A}.
Arguments Rejected {A}.
Arguments Pending {A}.

(** ** Effects

    One constructor per call on a host object, recorded when the call
    returns normally.  A call that throws leaves no effect of its own: the
    [catch] block that receives the exception does. *)
Inductive Effect :=
| CreateCanvas (w h : Z)
| GetContext2d
| FillRect (x y w h : Z)
| NewAudioContext
| CreateMediaStreamDestination
| AudioResume
| CaptureStream (frameRate : Z)
| NewMediaStream
| ConsoleLog (message : string)
| NewMediaRecorder (mimeType : string)
| RecorderStart
| OnProgress (p : ProcessingProgress)
| CreateVideo (f : File)
| CreateObjectURL (f : File)
| CreateMediaElementSource (f : File)
| Connect (f : File)
| ConsoleWarn (e : JsValue)
| Play (f : File)
| DrawImage (f : File) (r : Rect float)
| RequestAnimationFrame
| Disconnect (f : File)
| RevokeObjectURL (f : File)
| RecorderStop
| NewBlob (mimeType : string)
| AudioClose.

Definition Trace := list Effect.

(** ** The host *)

(** What [drawFrame] reads from the video element on one tick. *)
Record VideoState := {
  paused : bool;
  ended : bool;
  videoWidth : Z;
  videoHeight : Z
}.

(** The three ways the [try] block of [onloadedmetadata] can go. *)
Inductive AttachOutcome :=
| AttachOk
| CreateSourceThrows (e : JsValue)
| ConnectThrows (e : JsValue).

(** What the host delivers to one call of [playVideoToCanvas]. *)
Inductive VideoEvent :=
| Loadedmetadata (a : AttachOutcome)
| PlayFulfilled (v : VideoState)
| PlayRejected (e : JsValue)
| AnimationFrame (v : VideoState)
| Ended
| Errored (e : JsValue).

Inductive AudioState := Suspended | Running | Closed.

Record Host := {
  (** [canvas.getContext('2d')] is not null *)
  context2d : bool;
  (** [audioCtx.state] right after construction *)
  initialAudioState : AudioState;
  (** [MediaRecorder.isTypeSupported] *)
  isTypeSupported : string -> bool;
  (** the events of the video element made by the n-th driver call *)
  playback : nat -> list VideoEvent;
  (** the [dataavailable] events fired while the n-th driver call is awaited *)
  dataDuring : nat -> list Blob;
  (** the [dataavailable] events fired between [stop()] and the [stop] event *)
  dataAtStop : list Blob
}.

(** ** Asynchronous computations: an outcome and the trace so far *)

Definition Async (A : Type) : Type := Outcome A * Trace.

Definition ret {A} (a : A) : Async A := (Resolved a, []).

Definition throw {A} (e : JsValue) : Async A := (Rejected e, []).

Definition emit (e : Effect) : Async unit := (Resolved tt, [e]).

Definition bind {A B} (m : Async A) (k : A -> Async B) : Async B :=
  match fst m with
  | Resolved a => (fst (k a), snd m ++ snd (k a))
  | Rejected e => (Rejected e, snd m)
  | Pending => (Pending, snd m)
  end.

Notation "x <- m ;; k" := (bind m (fun x => k))
  (at level 61, m at next level, right associativity).
Notation "m ;; k" := (bind m (fun _ => k))
  (at level 61, right associativity).

(** ** PlaybackDriver: [playVideoToCanvas] *)

Inductive SourceNode := MediaElementSource (f : File).

(** The variables the handlers of one call share: [source], and which
    callbacks are outstanding. *)
Record DriverState := {
  source : option SourceNode;
  playPending : bool;
  frameRequested : bool
}.

Inductive Settle := Resolve | Reject (e : JsValue).

(** A handler run: its effects, the variables afterwards, and whether it
    settled the promise. *)
Record HandlerRun := {
  effects : Trace;
  after : DriverState;
  settled : option Settle
}.

Section Driver.
Variable (f : File) (width height : Z).

(** [drawFrame], lines 146-163: the effects of one tick and whether the
    next tick was requested. *)
Definition drawFrame (v : VideoState) : Trace * bool :=
  if (paused v || ended v)%bool then ([], false)
  else ([FillRect 0 0 width height;
         DrawImage f (frameRect float width height (videoWidth v) (videoHeight v));
         RequestAnimationFrame], true).

(** [video.onloadedmetadata], lines 165-177. *)
Definition onloadedmetadata (st : DriverState) (a : AttachOutcome) : HandlerRun :=
  let attach :=
    match a with
    | AttachOk =>
        (Some (MediaElementSource f), [CreateMediaElementSource f; Connect f])
    | CreateSourceThrows e =>
        (source st, [ConsoleWarn e])
    | ConnectThrows e =>
        (Some (MediaElementSource f), [CreateMediaElementSource f; ConsoleWarn e])
    end in
  {| effects := snd attach ++ [Play f];
     after := {| source := fst attach; playPending := true;
                 frameRequested := frameRequested st |};
     settled := None |}.

(** The [then] of [video.play()]. *)
Definition onplayFulfilled (st : DriverState) (v : VideoState) : HandlerRun :=
  let d := drawFrame v in
  {| effects := fst d;
     after := {| source := source st; playPending := false;
                 frameRequested := (frameRequested st || snd d)%bool |};
     settled := None |}.

(** The callback of [requestAnimationFrame]. *)
Definition onanimationFrame (st : DriverState) (v : VideoState) : HandlerRun :=
  let d := drawFrame v in
  {| effects := fst d;
     after := {| source := source st; playPending := playPending st;
                 frameRequested := snd d |};
     settled := None |}.

(** [if (source) source.disconnect()]. *)
Definition disconnectSource (st : DriverState) : Trace :=
  match source st with
  | Some _ => [Disconnect f]
  | None => []
  end.

(** [video.onended], lines 179-186. *)
Definition onended (st : DriverState) : HandlerRun :=
  {| effects := disconnectSource st ++ [RevokeObjectURL f];
     after := st;
     settled := Some Resolve |}.

(** [video.onerror], lines 188-193. *)
Definition onerror (st : DriverState) (e : JsValue) : HandlerRun :=
  {| effects := disconnectSource st;
     after := st;
     settled := Some (Reject e) |}.

Definition skip (st : DriverState) : HandlerRun :=
  {| effects := []; after := st; settled := None |}.

(** One host event.  A callback that is not outstanding cannot be run:
    the promise of [play()] settles only after [play()] was called, and a
    frame callback runs only when one was requested. *)
Definition deliver (st : DriverState) (ev : VideoEvent) : HandlerRun :=
  match ev with
  | Loadedmetadata a => onloadedmetadata st a
  | PlayFulfilled v => if playPending st then onplayFulfilled st v else skip st
  | PlayRejected e =>
      if playPending st
      then {| effects := []; after := st; settled := Some (Reject e) |}
      else skip st
  | AnimationFrame v => if frameRequested st then onanimationFrame st v else skip st
  | Ended => onended st
  | Errored e => onerror st e
  end.

(** The event loop while the promise is awaited: events are delivered in
    order until a handler settles the promise; if none does the promise
    stays pending.  The trace is what was done up to that moment; the
    handlers stay installed after it, and [handlers] below runs them over
    all the events of the element. *)
Fixpoint dispatch (st : DriverState) (events : list VideoEvent) : Async unit :=
  match events with
  | [] => (Pending, [])
  | ev :: rest =>
      let r := deliver st ev in
      match settled r with
      | Some Resolve => (Resolved tt, effects r)
      | Some (Reject e) => (Rejected e, effects r)
      | None =>
          let k := dispatch (after r) rest in
          (fst k, effects r ++ snd k)
      end
  end.

Definition initialDriver : DriverState :=
  {| source := None; playPending := false; frameRequested := false |}.

(** Lines 131-143, then the handlers above. *)
Definition playVideoToCanvas (events : list VideoEvent) : Async unit :=
  emit (CreateVideo f) ;;
  emit (CreateObjectURL f) ;;
  dispatch initialDriver events.

End Driver.

(** ** Encoder: negotiation and the chunk buffer *)

(** Lines 52-59. *)
Definition mimeTypes : list string :=
  [ "video/mp4;codecs=avc1,mp4a.40.2";
    "video/mp4;codecs=avc1";
    "video/mp4";
    "video/webm;codecs=h264";
    "video/webm;codecs=vp9,opus";
    "video/webm" ].

(** The [for ... of] loop of lines 62-67, from the current value of
    [selectedMimeType]. *)
Fixpoint selectMimeType (supported : string -> bool) (types : list string)
  (selectedMimeType : string) : string :=
  match types with
  | [] => selectedMimeType
  | type :: rest =>
      if supported type then type
      else selectMimeType supported rest selectedMimeType
  end.

(** [!s] on a string. *)
Definition falsy (s : string) : bool :=
  match s with
  | EmptyString => true
  | String _ _ => false
  end.

(** Lines 61-72. *)
Definition negotiate (supported : string -> bool) : string :=
  let selectedMimeType := selectMimeType supported mimeTypes "" in
  if falsy selectedMimeType then "video/webm" else selectedMimeType.

(** [mediaRecorder.ondataavailable], lines 81-85. *)
Definition ondataavailable (chunks : list Blob) (data : Blob) : list Blob :=
  if (0 <? size data)%nat then chunks ++ [data] else chunks.

Definition dataavailable (chunks : list Blob) (events : list Blob) : list Blob :=
  fold_left ondataavailable events chunks.

(** ** ClipSequencer: [stitchVideos] *)

(** The decimal digits of [n], as a template literal prints a number. *)
Definition decimal (n : nat) : string := NilEmpty.string_of_uint (Nat.to_uint n).

Definition processingMessage (n : nat) (clipName : string) : string :=
  "กำลังประมวลผลคลิปที่ " ++ decimal n ++ ": " ++ clipName ++ "...".

Definition finalizingMessage : string := "กำลังรวมไฟล์ขั้นสุดท้าย...".

Section Sequencer.
Variable host : Host.

(** The [for] loop of lines 90-100 from index [i], over the clips that
    are left; [total] is [videos.length].  The result is the chunk buffer
    as it stands after the loop. *)
Fixpoint processClips (total i : nat) (rest : list VideoFile) (chunks : list Blob)
  : Async (list Blob) :=
  match rest with
  | [] => ret chunks
  | videoFile :: rest' =>
      emit (OnProgress {| currentClipIndex := i + 1;
                          totalClips := total;
                          statusMessage := processingMessage (i + 1) (name videoFile) |}) ;;
      playVideoToCanvas (file videoFile) CANVAS_WIDTH CANVAS_HEIGHT (playback host i) ;;
      processClips total (S i) rest' (dataavailable chunks (dataDuring host i))
  end.

(** Lines 109-120: [stop()], the last chunks, then [onstop]. *)
Definition stopRecording (selectedMimeType : string) (chunks : list Blob)
  (audioState : AudioState) : Async Blob :=
  emit RecorderStop ;;
  let chunks := dataavailable chunks (dataAtStop host) in
  emit (NewBlob selectedMimeType) ;;
  (match audioState with
   | Closed => ret tt
   | _ => emit AudioClose
   end) ;;
  ret (newBlob chunks selectedMimeType).

(** [stitchVideos], lines 9-121.  The constructors are followed as they
    return; [new MediaRecorder] does for a type the host supports
    ([supportsListed] below). *)
Definition stitchVideos (videos : list VideoFile) : Async Blob :=
  if (length videos =? 0)%nat then throw (JsError "No videos to stitch")
  else
    emit (CreateCanvas CANVAS_WIDTH CANVAS_HEIGHT) ;;
    emit GetContext2d ;;
    if negb (context2d host) then throw (JsError "Could not create canvas context")
    else
      emit (FillRect 0 0 CANVAS_WIDTH CANVAS_HEIGHT) ;;
      emit NewAudioContext ;;
      emit CreateMediaStreamDestination ;;
      audioState <- (match initialAudioState host with
                     | Suspended => emit AudioResume ;; ret Running
                     | state => ret state
                     end) ;;
      emit (CaptureStream VIDEO_FRAME_RATE) ;;
      emit NewMediaStream ;;
      let selectedMimeType := negotiate (isTypeSupported host) in
      emit (ConsoleLog ("Using mime type: " ++ selectedMimeType)) ;;
      emit (NewMediaRecorder selectedMimeType) ;;
      emit RecorderStart ;;
      chunks <- processClips (length videos) 0 videos [] ;;
      emit (OnProgress {| currentClipIndex := length videos;
                          totalClips := length videos;
                          statusMessage := finalizingMessage |}) ;;
      stopRecording selectedMimeType chunks audioState.

End Sequencer.

(** ** Reading a trace *)

Definition count (p : Effect -> bool) (t : Trace) : nat := length (filter p t).

Definition isRecorderStart (e : Effect) : bool :=
  match e with RecorderStart => true | _ => false end.
Definition isRecorderStop (e : Effect) : bool :=
  match e with RecorderStop => true | _ => false end.
Definition isNewMediaRecorder (e : Effect) : bool :=
  match e with NewMediaRecorder _ => true | _ => false end.
Definition isAudioClose (e : Effect) : bool :=
  match e with AudioClose => true | _ => false end.
Definition isRevokeObjectURL (e : Effect) : bool :=
  match e with RevokeObjectURL _ => true | _ => false end.
Definition isCreateObjectURL (e : Effect) : bool :=
  match e with CreateObjectURL _ => true | _ => false end.
Definition isConnect (e : Effect) : bool :=
  match e with Connect _ => true | _ => false end.
Definition isDrawImage (e : Effect) : bool :=
  match e with DrawImage _ _ => true | _ => false end.

Definition isDisconnect (e : Effect) : bool :=
  match e with Disconnect _ => true | _ => false end.

(** The effects a driver call can leave. *)
Definition driverEffect (e : Effect) : bool :=
  match e with
  | CreateVideo _ | CreateObjectURL _ | CreateMediaElementSource _ | Connect _
  | ConsoleWarn _ | Play _ | FillRect _ _ _ _ | DrawImage _ _
  | RequestAnimationFrame | Disconnect _ | RevokeObjectURL _ => true
  | _ => false
  end.

(** The calls of [onProgress] and the video elements made, in the order
    of the trace. *)
Inductive Milestone :=
| Progress (p : ProcessingProgress)
| Started (f : File).

Fixpoint milestones (t : Trace) : list Milestone :=
  match t with
  | [] => []
  | OnProgress p :: t' => Progress p :: milestones t'
  | CreateVideo f :: t' => Started f :: milestones t'
  | _ :: t' => milestones t'
  end.

(** A driver effect that is not the making of the video element. *)
Definition quiet (e : Effect) : Prop :=
  driverEffect e = true /\ milestones [e] = [].

Definition progressOf (ms : list Milestone) : list ProcessingProgress :=
  flat_map (fun m => match m with Progress p => [p] | Started _ => [] end) ms.

Definition startedOf (ms : list Milestone) : list File :=
  flat_map (fun m => match m with Progress _ => [] | Started f => [f] end) ms.

(** The arguments of the calls of [onProgress], in order. *)
Definition progressCalls (t : Trace) : list ProcessingProgress :=
  progressOf (milestones t).

(** The files for which a video element was made, in order. *)
Definition startedClips (t : Trace) : list File :=
  startedOf (milestones t).

(** ** Vocabulary of the statements *)

(** The outcome of the driver call for clip [v] at index [i]. *)
Definition driverOutcome (host : Host) (i : nat) (v : VideoFile) : Outcome unit :=
  fst (playVideoToCanvas (file v) CANVAS_WIDTH CANVAS_HEIGHT (playback host i)).

(** Progress call, then video element, for each clip from index [i]. *)
Fixpoint expectedMilestones (total i : nat) (clips : list VideoFile) : list Milestone :=
  match clips with
  | [] => []
  | v :: rest =>
      Progress {| currentClipIndex := i + 1; totalClips := total;
                  statusMessage := processingMessage (i + 1) (name v) |}
      :: Started (file v) :: expectedMilestones total (S i) rest
  end.

Definition finalProgress (n : nat) : ProcessingProgress :=
  {| currentClipIndex := n; totalClips := n; statusMessage := finalizingMessage |}.

(** What [stitchVideos] has done when it enters the loop. *)
Definition setupTrace (host : Host) : Trace :=
  [CreateCanvas CANVAS_WIDTH CANVAS_HEIGHT; GetContext2d;
   FillRect 0 0 CANVAS_WIDTH CANVAS_HEIGHT; NewAudioContext;
   CreateMediaStreamDestination]
  ++ match initialAudioState host with Suspended => [AudioResume] | _ => [] end
  ++ [CaptureStream VIDEO_FRAME_RATE; NewMediaStream;
      ConsoleLog ("Using mime type: " ++ negotiate (isTypeSupported host));
      NewMediaRecorder (negotiate (isTypeSupported host)); RecorderStart].

Definition audioAfterSetup (host : Host) : AudioState :=
  match initialAudioState host with Suspended => Running | state => state end.

(** Every [dataavailable] event of a run over [n] clips, in order. *)
Definition arrivals (host : Host) (n : nat) : list Blob :=
  flat_map (dataDuring host) (seq 0 n) ++ dataAtStop host.

Definition nonEmpty (b : Blob) : bool := (0 <? size b)%nat.

(** A frame whose aspect ratio is wider (taller) than the target's:
    [vw / vh > W / Ht] ([<]), with the divisions cleared. *)
Definition wider (W Ht vw vh : Z) : Prop := (W * vh < vw * Ht)%Z.
Definition taller (W Ht vw vh : Z) : Prop := (vw * Ht < W * vh)%Z.

(** ** The letterbox in binary64 *)

(** The factor by which a frame is scaled when its width, or its height,
    is the side that fits: the two arguments of [Math.min] in line 154. *)
Definition fitWidth (vw : Z) : float := ndiv (ofZ CANVAS_WIDTH) (ofZ vw).
Definition fitHeight (vh : Z) : float := ndiv (ofZ CANVAS_HEIGHT) (ofZ vh).

(** [x] is the double [t] or one of the two doubles next to it. *)
Definition nextTo (t x : float) : Prop :=
  x = t \/ x = PrimFloat.next_down t \/ x = PrimFloat.next_up t.

Definition nextTob (t x : float) : bool :=
  (PrimFloat.Leibniz.eqb x t || PrimFloat.Leibniz.eqb x (PrimFloat.next_down t)
   || PrimFloat.Leibniz.eqb x (PrimFloat.next_up t))%bool.

Definition positiveFinite (x : float) : bool :=
  (PrimFloat.ltb 0 x && PrimFloat.ltb x infinity)%bool.

(** The largest frame side the table below covers. *)
Definition MAX_SIDE : Z := 65536.

(** What is checked of a frame side [v], by evaluation in binary64: both
    factors are positive and finite and get smaller as the side grows; the
    factor that fits the width is the smaller one against the tallest frame
    that is still wider than the target, and the other way round; the two
    factors are the same double on the frame of the target's own aspect
    ratio that is [v] times its lowest terms; and the fitted side comes
    back as the target's side or a double next to it, with a margin of at
    most half a unit in its last place. *)
Definition sideChecked (v : Z) : bool :=
  let W := ofZ CANVAS_WIDTH in
  let Ht := ofZ CANVAS_HEIGHT in
  let tallest := ((CANVAS_HEIGHT * v - 1) / CANVAS_WIDTH)%Z in
  let widest := Z.min MAX_SIDE ((CANVAS_WIDTH * v - 1) / CANVAS_HEIGHT)%Z in
  let across := (CANVAS_WIDTH / Z.gcd CANVAS_WIDTH CANVAS_HEIGHT * v)%Z in
  let down := (CANVAS_HEIGHT / Z.gcd CANVAS_WIDTH CANVAS_HEIGHT * v)%Z in
  let w := nmul (ofZ v) (fitWidth v) in
  let h := nmul (ofZ v) (fitHeight v) in
  (positiveFinite (fitWidth v) && positiveFinite (fitHeight v)
   && PrimFloat.leb (fitWidth (v + 1)) (fitWidth v)
   && PrimFloat.leb (fitHeight (v + 1)) (fitHeight v)
   && ((tallest <? 1)%Z || PrimFloat.leb (fitWidth v) (fitHeight tallest))
   && ((widest <? 1)%Z || PrimFloat.leb (fitHeight v) (fitWidth widest))
   && ((MAX_SIDE <? across)%Z
       || PrimFloat.Leibniz.eqb (fitWidth across) (fitHeight down))
   && nextTob W w
   && PrimFloat.leb (PrimFloat.abs (ndiv (nsub W w) (ofZ 2))) 0x1p-43
   && nextTob Ht h
   && PrimFloat.leb (PrimFloat.abs (ndiv (nsub Ht h) (ofZ 2))) 0x1p-44)%bool.

Fixpoint forallFrom (n : nat) (z : Z) (p : Z -> bool) : bool :=
  match n with
  | O => true
  | S n' => p z && forallFrom n' (z + 1)%Z p
  end.

(** The same host with every audio attach succeeding. *)
Definition attached (ev : VideoEvent) : VideoEvent :=
  match ev with
  | Loadedmetadata _ => Loadedmetadata AttachOk
  | other => other
  end.

Definition attachAlways (host : Host) : Host :=
  {| context2d := context2d host;
     initialAudioState := initialAudioState host;
     isTypeSupported := isTypeSupported host;
     playback := fun i => map attached (playback host i);
     dataDuring := dataDuring host;
     dataAtStop := dataAtStop host |}.

(** ** The raster target, as the host paints it

    [drawImage(video, x, y, w, h)] returns without painting and without
    raising when one of its numbers is NaN or infinite, and a destination
    rectangle of width or height zero has no area. *)
Definition finite (x : float) : bool :=
  (negb (PrimFloat.is_nan x) && negb (PrimFloat.is_infinity x))%bool.

Definition paints (r : Rect float) : bool :=
  (finite (rx r) && finite (ry r)
   && (finite (rw r) && negb (PrimFloat.is_zero (rw r)))
   && (finite (rh r) && negb (PrimFloat.is_zero (rh r))))%bool.

(** The pictures on the target over its background, oldest first. *)
Definition Raster : Type := list (File * Rect float).

(** [fillRect] in the background colour over the whole target leaves the
    background alone; [drawImage] adds a picture when it paints. *)
Definition paint (width height : Z) (shown : Raster) (e : Effect) : Raster :=
  match e with
  | FillRect x y w h =>
      if ((x =? 0) && (y =? 0) && (w =? width) && (h =? height))%Z then []
      else shown
  | DrawImage f r => if paints r then shown ++ [(f, r)] else shown
  | _ => shown
  end.

Definition raster (width height : Z) (shown : Raster) (t : Trace) : Raster :=
  fold_left (paint width height) t shown.

(** The host supports one of the listed types.  [new MediaRecorder]
    throws NotSupportedError for a type that [isTypeSupported] rejects, and
    [stitchVideos] above follows the constructor as it returns: what is
    stated of the recorder and of the output is stated for such hosts. *)
Definition supportsListed (host : Host) : Prop :=
  existsb (isTypeSupported host) mimeTypes = true.

(** The effects of one tick on which the video is playing. *)
Definition tickOf (f : File) (width height : Z) (v : VideoState) : Trace :=
  [FillRect 0 0 width height;
   DrawImage f (frameRect float width height (videoWidth v) (videoHeight v));
   RequestAnimationFrame].

(** The video is playing on this tick. *)
Definition isPlaying (v : VideoState) : Prop := (paused v || ended v)%bool = false.

(** A clip that loads (its audio attached or not), plays frame after
    frame and ends. *)
Definition playsThrough (events : list VideoEvent) : Prop :=
  exists a first frames,
    Forall isPlaying (first :: frames) /\
    events = Loadedmetadata a :: PlayFulfilled first
               :: map AnimationFrame frames ++ [Ended].

(** The handlers stay installed for as long as the video element lives:
    lines 165-193 assign them once and have no guard on the promise being
    settled, so an event that comes after the settlement runs its handler
    all the same (a second [resolve] or [reject] does nothing).
    [handlers] is what the handlers do over all the events of the element,
    [lifetime] the whole call with it. *)
Fixpoint handlers (f : File) (width height : Z) (st : DriverState)
  (events : list VideoEvent) : Trace :=
  match events with
  | [] => []
  | ev :: rest =>
      let r := deliver f width height st ev in
      effects r ++ handlers f width height (after r) rest
  end.

Definition lifetime (f : File) (width height : Z) (events : list VideoEvent) : Trace :=
  CreateVideo f :: CreateObjectURL f :: handlers f width height initialDriver events.

Definition isEnded (ev : VideoEvent) : bool :=
  match ev with Ended => true | _ => false end.

Definition isClosing (ev : VideoEvent) : bool :=
  match ev with Ended | Errored _ => true | _ => false end.

(** ** Scenarios *)

Definition playing (vw vh : Z) : VideoState :=
  {| paused := false; ended := false; videoWidth := vw; videoHeight := vh |}.

Definition clipA : VideoFile :=
  {| id := "a"; file := {| fileName := "a.mp4"; fileType := "video/mp4" |};
     previewUrl := "blob:a"; duration := 0; name := "a.mp4" |}.

Definition clipB : VideoFile :=
  {| id := "b"; file := {| fileName := "b.mov"; fileType := "video/quicktime" |};
     previewUrl := "blob:b"; duration := 0; name := "b.mov" |}.

Definition chunk (bytes : list Byte.byte) : Blob :=
  {| blobData := bytes; blobType := "" |}.

(** A clip that loads, plays two frames and ends. *)
Definition playsToEnd : list VideoEvent :=
  [Loadedmetadata AttachOk; PlayFulfilled (playing 1920 1080);
   AnimationFrame (playing 1920 1080); Ended].

(** A clip whose decoding fails after the first frame. *)
Definition decodeFails : list VideoEvent :=
  [Loadedmetadata AttachOk; PlayFulfilled (playing 1920 1080);
   Errored (MediaErrorEvent 3)].

(** A clip whose audio cannot be attached, and that plays to its end. *)
Definition silentToEnd : list VideoEvent :=
  [Loadedmetadata (CreateSourceThrows (DOMException "InvalidStateError"));
   PlayFulfilled (playing 1920 1080); Ended].

Definition hostWith (ctx : bool) (supported : string -> bool)
  (scripts : nat -> list VideoEvent) : Host :=
  {| context2d := ctx;
     initialAudioState := Suspended;
     isTypeSupported := supported;
     playback := scripts;
     dataDuring := fun _ => [chunk [Byte.x1a; Byte.x45]; chunk []];
     dataAtStop := [chunk [Byte.xdf]] |}.

Definition webmOnly (type : string) : bool :=
  (String.eqb type "video/webm;codecs=vp9,opus" || String.eqb type "video/webm")%bool.

(** Every clip plays to its end. *)
Definition goodHost : Host := hostWith true webmOnly (fun _ => playsToEnd).

(** The second clip's decoding fails. *)
Definition secondFailsHost : Host :=
  hostWith true webmOnly
    (fun i => match i with 1%nat => decodeFails | _ => playsToEnd end).

(** No clip's audio can be attached. *)
Definition silentHost : Host := hostWith true webmOnly (fun _ => silentToEnd).

(** No 2D context, and no container of the list supported. *)
Definition bareHost : Host := hostWith false (fun _ => false) (fun _ => playsToEnd).

(** ** More readers of a trace *)

Definition isOnProgress (e : Effect) : bool :=
  match e with OnProgress _ => true | _ => false end.
Definition isCreateMediaElementSource (e : Effect) : bool :=
  match e with CreateMediaElementSource _ => true | _ => false end.

(** An effect of the loop of [stitchVideos]: a driver effect or a call
    of [onProgress]. *)
Definition loopEffect (e : Effect) : bool := (driverEffect e || isOnProgress e)%bool.

(** [1] when the promise resolved, [0] otherwise. *)
Definition resolvedOnce {A} (o : Outcome A) : nat :=
  match o with Resolved _ => 1 | _ => 0 end.

(** A clip that loads and plays but never reports its end or an error. *)
Definition neverEnds : list VideoEvent :=
  [Loadedmetadata AttachOk; PlayFulfilled (playing 1920 1080);
   AnimationFrame (playing 1920 1080)].

(** The second clip never ends. *)
Definition secondStallsHost : Host :=
  hostWith true webmOnly
    (fun i => match i with 1%nat => neverEnds | _ => playsToEnd end).

(** An event other than [loadedmetadata]. *)
Definition afterLoading (ev : VideoEvent) : Prop :=
  match ev with
  | Loadedmetadata _ => False
  | _ => True
  end.

Definition pausedAt (vw vh : Z) : VideoState :=
  {| paused := true; ended := false; videoWidth := vw; videoHeight := vh |}.

(** * The page: [App.tsx] and [types.ts] *)

From Stdlib Require Import Ascii Permutation Sorted.

(** ** Strings, as the handlers use them *)

Definition truthy (s : string) : bool := negb (falsy s).

(** [s.includes(part)]. *)
Fixpoint includes (part s : string) : bool :=
  (String.prefix part s
   || match s with
      | EmptyString => false
      | String _ rest => includes part rest
      end)%bool.

(** [s.split('/')[0]]: what comes before the first slash. *)
Fixpoint firstSegment (s : string) : string :=
  match s with
  | EmptyString => EmptyString
  | String c rest =>
      if Ascii.eqb c "/"%char then EmptyString else String c (firstSegment rest)
  end.

(** A letter A-Z to a-z, any other character to itself: the only case
    pairs an [/i] pattern of ASCII letters identifies. *)
Definition lowerAscii (c : ascii) : ascii :=
  let n := nat_of_ascii c in
  if ((65 <=? n) && (n <=? 90))%nat%bool then ascii_of_nat (n + 32) else c.

Fixpoint lower (s : string) : string :=
  match s with
  | EmptyString => EmptyString
  | String c rest => String (lowerAscii c) (lower rest)
  end.

Definition endsWith (s suffix : string) : bool :=
  ((String.length suffix <=? String.length s)%nat
   && String.eqb (substring (String.length s - String.length suffix)
                            (String.length suffix) s) suffix)%bool.

(** ** [types.ts] *)

Inductive AppState := IDLE | UPLOADING | PROCESSING | COMPLETED | ERROR.

(** ** The state of the component: its seven [useState] cells *)

Record AppModel := mkApp {
  appState : AppState;
  videoFiles : list VideoFile;
  progress : ProcessingProgress;
  resultBlob : option Blob;
  resultUrl : option string;
  errorMsg : option string;
  folderName : option string
}.

Definition noProgress : ProcessingProgress :=
  {| currentClipIndex := 0; totalClips := 0; statusMessage := "" |}.

Definition initialApp : AppModel := mkApp IDLE [] noProgress None None None None.

(** What a handler does outside the component's state. *)
Inductive AppEffect :=
| CreatePreviewURL (f : File) (url : string)
| CreateResultURL (b : Blob) (url : string)
| RevokeURL (url : string)
| ConsoleError (e : JsValue)
| Download (href download : string)
| Pipeline (e : Effect).

(** ** [handleFolderUpload] *)

Definition validTypes : list string :=
  ["video/mp4"; "video/webm"; "video/quicktime"; "video/x-m4v"].

Definition videoExtensions : list string := ["mp4"; "mov"; "webm"; "mkv"].

(** [name.match(/\.(mp4|mov|webm|mkv)$/i)] is not null. *)
Definition matchesVideoExtension (fileName : string) : bool :=
  existsb (fun extension => endsWith (lower fileName) ("." ++ extension)%string)
          videoExtensions.

(** The test of line 34. *)
Definition isVideo (f : File) : bool :=
  (existsb (String.eqb (fileType f)) validTypes
   || matchesVideoExtension (fileName f))%bool.

Definition noVideosMessage : string := "ไม่พบไฟล์วิดีโอในโฟลเดอร์ที่เลือก".

Section Upload.
(** What the browser answers during one call of the handler: the
    [webkitRelativePath] of a file, the k-th [crypto.randomUUID()], the k-th
    [URL.createObjectURL(file)], and [String.prototype.localeCompare]. *)
Variable webkitRelativePath : File -> string.
Variable randomUUID : nat -> string.
Variable createObjectURL : nat -> string.
Variable localeCompare : string -> string -> Z.

(** The [forEach] of lines 33-43, from the list pushed so far. *)
Fixpoint collectVideos (files : list File) (videoList : list VideoFile)
  : list VideoFile :=
  match files with
  | [] => videoList
  | f :: rest =>
      if isVideo f
      then collectVideos rest
             (videoList ++ [{| id := randomUUID (length videoList);
                               file := f;
                               previewUrl := createObjectURL (length videoList);
                               duration := 0;
                               name := fileName f |}])
      else collectVideos rest videoList
  end.

(** [videoList.sort((a, b) => a.name.localeCompare(b.name))]: the sort is
    stable, so an element goes before the first one it sorts before. *)
Fixpoint insertByName (v : VideoFile) (sorted : list VideoFile) : list VideoFile :=
  match sorted with
  | [] => [v]
  | u :: rest =>
      if (localeCompare (name v) (name u) <? 0)%Z then v :: u :: rest
      else u :: insertByName v rest
  end.

Definition sortByName (videoList : list VideoFile) : list VideoFile :=
  fold_left (fun sorted v => insertByName v sorted) videoList [].

(** [v] does not sort before [u]. *)
Definition inNameOrder (u v : VideoFile) : Prop :=
  ~ (localeCompare (name v) (name u) < 0)%Z.

(** Lines 17-53; [files] is [event.target.files], which may be null. *)
Definition handleFolderUpload (files : option (list File)) (s : AppModel)
  : AppModel * list AppEffect :=
  match files with
  | None | Some [] =>
      (mkApp (appState s) (videoFiles s) (progress s) (resultBlob s)
             (resultUrl s) None (folderName s), [])
  | Some ((firstFile :: _) as fileList) =>
      let folder :=
        if truthy (webkitRelativePath firstFile)
        then Some (firstSegment (webkitRelativePath firstFile))
        else folderName s in
      let videoList := collectVideos fileList [] in
      let made := map (fun v => CreatePreviewURL (file v) (previewUrl v)) videoList in
      if (length videoList =? 0)%nat
      then (mkApp (appState s) (videoFiles s) (progress s) (resultBlob s)
                  (resultUrl s) (Some noVideosMessage) folder, made)
      else (mkApp IDLE (sortByName videoList) (progress s) (resultBlob s)
                  (resultUrl s) None folder, made)
  end.

End Upload.

(** ** [handleStartProcessing] *)

Definition stitchErrorPrefix : string := "เกิดข้อผิดพลาดในการรวมคลิป: ".

Section StartProcessing.
Variable host : Host.
(** What [URL.createObjectURL(blob)] returns, and the [message] of an
    exception of the browser by its name. *)
Variable resultURL : string.
Variable domMessage : string -> string.

(** [err.message]: the message of an [Error] or of a DOM exception; an
    event has none. *)
Definition messageOf (err : JsValue) : option string :=
  match err with
  | JsError message => Some message
  | DOMException exnName => Some (domMessage exnName)
  | MediaErrorEvent _ => None
  | ClipProcessingError _ _ => None
  end.

(** [err.message || 'Unknown error']. *)
Definition shownMessage (err : JsValue) : string :=
  match messageOf err with
  | Some message => if falsy message then "Unknown error" else message
  | None => "Unknown error"
  end.

(** Lines 55-72.  The callback handed to [stitchVideos] is [setProgress],
    so the cell holds the argument of the last call. *)
Definition handleStartProcessing (s : AppModel) : AppModel * list AppEffect :=
  if (length (videoFiles s) =? 0)%nat then (s, [])
  else
    let run := stitchVideos host (videoFiles s) in
    let shown := last (progressCalls (snd run)) (progress s) in
    match fst run with
    | Resolved blob =>
        (mkApp COMPLETED (videoFiles s) shown (Some blob) (Some resultURL)
               None (folderName s),
         map Pipeline (snd run) ++ [CreateResultURL blob resultURL])
    | Rejected err =>
        (mkApp ERROR (videoFiles s) shown (resultBlob s) (resultUrl s)
               (Some (stitchErrorPrefix ++ shownMessage err)%string) (folderName s),
         map Pipeline (snd run) ++ [ConsoleError err])
    | Pending =>
        (mkApp PROCESSING (videoFiles s) shown (resultBlob s) (resultUrl s)
               None (folderName s),
         map Pipeline (snd run))
    end.

End StartProcessing.

(** ** [handleDownload] and [resetApp] *)

(** The file extension of lines 80-81. *)
Definition extensionOf (type : string) : string :=
  if includes "mp4" type then "mp4" else "webm".

(** The name used when no folder name is known; [now] is [Date.now()]. *)
Definition defaultDownloadName (now : N) : string :=
  ("stitched_video_" ++ NilEmpty.string_of_uint (N.to_uint now))%string.

(** Lines 74-89. *)
Definition handleDownload (now : N) (s : AppModel) : list AppEffect :=
  match resultUrl s, resultBlob s with
  | Some url, Some blob =>
      if falsy url then []
      else
        let extension := extensionOf (blobType blob) in
        let fallback := defaultDownloadName now in
        let fileName :=
          match folderName s with
          | Some folder => if falsy folder then fallback else folder
          | None => fallback
          end in
        [Download url (fileName ++ "." ++ extension)%string]
  | _, _ => []
  end.

(** Lines 91-100. *)
Definition resetApp (s : AppModel) : AppModel * list AppEffect :=
  (mkApp IDLE [] noProgress None None (errorMsg s) None,
   map (fun v => RevokeURL (previewUrl v)) (videoFiles s)
   ++ match resultUrl s with
      | Some url => if falsy url then [] else [RevokeURL url]
      | None => []
      end).

(** ** What the component renders *)

Inductive Panel := UploadPanel | ReviewPanel | ProcessingPanel | ResultPanel | ErrorPanel.

Definition isState (a b : AppState) : bool :=
  match a, b with
  | IDLE, IDLE | UPLOADING, UPLOADING | PROCESSING, PROCESSING
  | COMPLETED, COMPLETED | ERROR, ERROR => true
  | _, _ => false
  end.

Definition shownIf (condition : bool) (p : Panel) : list Panel :=
  if condition then [p] else [].

(** The five conditional blocks of the returned markup, in order. *)
Definition panels (s : AppModel) : list Panel :=
  shownIf (isState (appState s) IDLE && (length (videoFiles s) =? 0)%nat) UploadPanel
  ++ shownIf ((0 <? length (videoFiles s))%nat && isState (appState s) IDLE) ReviewPanel
  ++ shownIf (isState (appState s) PROCESSING) ProcessingPanel
  ++ shownIf (isState (appState s) COMPLETED
              && match resultUrl s with Some url => truthy url | None => false end)
             ResultPanel
  ++ shownIf (isState (appState s) ERROR) ErrorPanel.

(** The error text on screen: the upload panel shows [errorMsg] when it
    is truthy, the error panel shows it as its text. *)
Definition shownError (s : AppModel) : option string :=
  if (isState (appState s) IDLE && (length (videoFiles s) =? 0)%nat
      || isState (appState s) ERROR)%bool
  then match errorMsg s with
       | Some message => if falsy message then None else Some message
       | None => None
       end
  else None.

(** The states the page can be in: the initial one, and any that a
    handler leaves; an object URL is never the empty string. *)
Inductive reachable : AppModel -> Prop :=
| reach_initial : reachable initialApp
| reach_upload s path uuid urls compare files :
    reachable s ->
    reachable (fst (handleFolderUpload path uuid urls compare files s))
| reach_start s host url message :
    reachable s -> truthy url = true ->
    reachable (fst (handleStartProcessing host url message s))
| reach_reset s :
    reachable s -> reachable (fst (resetApp s)).

(** What the render needs of the state. *)
Definition renderable (s : AppModel) : Prop :=
  match appState s with
  | UPLOADING => False
  | COMPLETED => exists url, resultUrl s = Some url /\ truthy url = true
  | _ => True
  end.

(** The URLs a trace of the page creates and revokes. *)
Definition createdURLs (t : list AppEffect) : list string :=
  flat_map (fun e => match e with
                     | CreatePreviewURL _ url | CreateResultURL _ url => [url]
                     | _ => []
                     end) t.

Definition revokedURLs (t : list AppEffect) : list string :=
  flat_map (fun e => match e with RevokeURL url => [url] | _ => [] end) t.

(** A comparison by length, for the scenarios. *)
Definition byLength (a b : string) : Z :=
  (Z.of_nat (String.length a) - Z.of_nat (String.length b))%Z.

Definition folderFiles : list File :=
  [ {| fileName := "trip-part2.MOV"; fileType := "" |};
    {| fileName := "notes.txt"; fileType := "text/plain" |};
    {| fileName := "intro.mp4"; fileType := "video/mp4" |} ].

(** * Proofs *)

(** ** Sequencing *)

Lemma bind_emit {B} (e : Effect) (k : Async B) :
  (emit e ;; k) = (fst k, e :: snd k).
Proof. reflexivity. Qed.

Lemma milestones_app (t u : Trace) :
  milestones (t ++ u) = milestones t ++ milestones u.
Proof.
  induction t as [|e t IH]; [reflexivity|].
  destruct e; simpl; rewrite IH; reflexivity.
Qed.

Lemma count_app (p : Effect -> bool) (t u : Trace) :
  count p (t ++ u) = (count p t + count p u)%nat.
Proof. unfold count. now rewrite filter_app, length_app. Qed.

Lemma count_none (p : Effect -> bool) (t : Trace) :
  Forall (fun e => p e = false) t -> count p t = 0%nat.
Proof.
  unfold count. induction 1 as [|e t He _ IH]; [reflexivity|].
  simpl. now rewrite He.
Qed.

Lemma dataavailable_app chunks a b :
  dataavailable chunks (a ++ b) = dataavailable (dataavailable chunks a) b.
Proof. apply fold_left_app. Qed.

(** ** The driver's trace *)

Lemma drawFrame_effects f w h v :
  Forall quiet (fst (drawFrame f w h v)).
Proof.
  unfold drawFrame. destruct (paused v || ended v)%bool; simpl;
    repeat constructor.
Qed.

Lemma deliver_effects f w h st ev :
  Forall quiet (effects (deliver f w h st ev)).
Proof.
  destruct ev as [a|v|e|v| |e]; simpl.
  - destruct a; simpl; repeat constructor.
  - destruct (playPending st); simpl; [apply drawFrame_effects|constructor].
  - destruct (playPending st); simpl; constructor.
  - destruct (frameRequested st); simpl; [apply drawFrame_effects|constructor].
  - unfold disconnectSource. destruct (source st); simpl; repeat constructor.
  - unfold disconnectSource. destruct (source st); simpl; repeat constructor.
Qed.

Lemma dispatch_effects f w h events : forall st,
  Forall quiet (snd (dispatch f w h st events)).
Proof.
  induction events as [|ev rest IH]; intros st; simpl; [constructor|].
  pose proof (deliver_effects f w h st ev) as Hd.
  destruct (settled (deliver f w h st ev)) as [[|e]|]; simpl; trivial.
  apply Forall_app; split; [exact Hd|apply IH].
Qed.

Lemma milestones_quiet (t : Trace) : Forall quiet t -> milestones t = [].
Proof.
  induction 1 as [|e t [_ He] _ IH]; [reflexivity|].
  change (e :: t) with ([e] ++ t). now rewrite milestones_app, He, IH.
Qed.

Lemma driver_milestones f w h events :
  milestones (snd (playVideoToCanvas f w h events)) = [Started f].
Proof.
  unfold playVideoToCanvas. rewrite !bind_emit. simpl.
  now rewrite (milestones_quiet _ (dispatch_effects f w h events _)).
Qed.

Lemma driver_trace_effects f w h events :
  Forall (fun e => driverEffect e = true) (snd (playVideoToCanvas f w h events)).
Proof.
  unfold playVideoToCanvas. rewrite !bind_emit. simpl.
  repeat (constructor; [reflexivity|]).
  eapply Forall_impl; [|apply dispatch_effects]. now intros e [He _].
Qed.

(** ** The loop and what surrounds it *)

Section SequencerFacts.
Variable host : Host.

Lemma processClips_cons total i v rest chunks :
  processClips host total i (v :: rest) chunks =
  let p := {| currentClipIndex := i + 1; totalClips := total;
              statusMessage := processingMessage (i + 1) (name v) |} in
  let d := playVideoToCanvas (file v) CANVAS_WIDTH CANVAS_HEIGHT (playback host i) in
  let k := processClips host total (S i) rest (dataavailable chunks (dataDuring host i)) in
  match fst d with
  | Resolved _ => (fst k, OnProgress p :: snd d ++ snd k)
  | Rejected e => (Rejected e, OnProgress p :: snd d)
  | Pending => (Pending, OnProgress p :: snd d)
  end.
Proof.
  cbn [processClips]. rewrite bind_emit. unfold bind.
  destruct (fst (playVideoToCanvas _ _ _ _)); reflexivity.
Qed.

(** When the loop runs to its end, the buffer holds what arrived during
    the clips. *)
Lemma processClips_buffer : forall rest total i chunks result,
  fst (processClips host total i rest chunks) = Resolved result ->
  result = dataavailable chunks (flat_map (dataDuring host) (seq i (length rest))).
Proof.
  induction rest as [|v rest IH]; intros total i chunks result Hres.
  - now injection Hres as <-.
  - rewrite processClips_cons in Hres. cbv zeta in Hres.
    destruct (fst (playVideoToCanvas _ _ _ _)); try discriminate.
    cbn [fst] in Hres. apply IH in Hres.
    cbn [length seq flat_map]. now rewrite dataavailable_app.
Qed.

Lemma processClips_resolved : forall rest total i chunks,
  (forall j v, nth_error rest j = Some v ->
               driverOutcome host (i + j) v = Resolved tt) ->
  (exists result, fst (processClips host total i rest chunks) = Resolved result) /\
  milestones (snd (processClips host total i rest chunks))
    = expectedMilestones total i rest.
Proof.
  induction rest as [|v rest IH]; intros total i chunks Hall.
  - split; [now exists chunks|reflexivity].
  - rewrite processClips_cons. cbv zeta.
    pose proof (Hall 0%nat v eq_refl) as H0. rewrite Nat.add_0_r in H0.
    unfold driverOutcome in H0. rewrite H0.
    destruct (IH total (S i) (dataavailable chunks (dataDuring host i)))
      as [Ho Hm].
    { intros j w Hj. rewrite Nat.add_succ_l, <- Nat.add_succ_r. now apply Hall. }
    cbn [fst snd]. split; [exact Ho|].
    cbn [milestones expectedMilestones]. f_equal.
    now rewrite milestones_app, driver_milestones, Hm.
Qed.

Lemma processClips_rejected : forall rest total i chunks k v cause,
  nth_error rest k = Some v ->
  (forall j w, (j < k)%nat -> nth_error rest j = Some w ->
               driverOutcome host (i + j) w = Resolved tt) ->
  driverOutcome host (i + k) v = Rejected cause ->
  fst (processClips host total i rest chunks) = Rejected cause /\
  milestones (snd (processClips host total i rest chunks))
    = expectedMilestones total i (firstn (S k) rest).
Proof.
  induction rest as [|u rest IH]; intros total i chunks k v cause Hk Hbefore Hrej.
  - destruct k; discriminate.
  - rewrite processClips_cons. cbv zeta. destruct k as [|k].
    + injection Hk as ->. rewrite Nat.add_0_r in Hrej.
      unfold driverOutcome in Hrej. rewrite Hrej. split; [reflexivity|].
      cbn [snd milestones firstn expectedMilestones]. f_equal.
      apply driver_milestones.
    + pose proof (Hbefore 0%nat u (Nat.lt_0_succ k) eq_refl) as H0.
      rewrite Nat.add_0_r in H0. unfold driverOutcome in H0. rewrite H0.
      destruct (IH total (S i) (dataavailable chunks (dataDuring host i)) k v cause)
        as [Ho Hm]; trivial.
      { intros j w Hj Hw. rewrite Nat.add_succ_l, <- Nat.add_succ_r.
        apply Hbefore; [lia|exact Hw]. }
      { now rewrite Nat.add_succ_l, <- Nat.add_succ_r. }
      cbn [fst snd]. split; [exact Ho|].
      change (firstn (S (S k)) (u :: rest)) with (u :: firstn (S k) rest).
      cbn [milestones expectedMilestones]. f_equal.
      now rewrite milestones_app, driver_milestones, Hm.
Qed.

(** The loop itself never touches the recorder or the audio context. *)
Lemma processClips_effects : forall rest total i chunks,
  Forall (fun e => isRecorderStop e = false /\ isAudioClose e = false)
         (snd (processClips host total i rest chunks)).
Proof.
  assert (Hd : forall f w h events,
    Forall (fun e => isRecorderStop e = false /\ isAudioClose e = false)
           (snd (playVideoToCanvas f w h events))).
  { intros. eapply Forall_impl; [|apply driver_trace_effects].
    intros e He. destruct e; try discriminate; now split. }
  induction rest as [|v rest IH]; intros total i chunks; [constructor|].
  rewrite processClips_cons. cbv zeta.
  destruct (fst (playVideoToCanvas _ _ _ _)); cbn [snd];
    (constructor; [now split|]); try apply Hd.
  apply Forall_app; split; [apply Hd|apply IH].
Qed.

Lemma stitchVideos_running videos :
  videos <> [] -> context2d host = true ->
  stitchVideos host videos =
  let loop := processClips host (length videos) 0 videos [] in
  match fst loop with
  | Resolved chunks =>
      let stop := stopRecording host (negotiate (isTypeSupported host)) chunks
                                (audioAfterSetup host) in
      (fst stop,
       setupTrace host ++ snd loop
         ++ OnProgress (finalProgress (length videos)) :: snd stop)
  | Rejected e => (Rejected e, setupTrace host ++ snd loop)
  | Pending => (Pending, setupTrace host ++ snd loop)
  end.
Proof.
  intros Hne Hctx. unfold stitchVideos, setupTrace, audioAfterSetup.
  destruct videos as [|v vs]; [contradiction|].
  change (length (v :: vs) =? 0)%nat with false. cbv iota.
  rewrite Hctx. cbn [negb]. cbv zeta.
  set (loop := processClips host _ 0 _ []).
  set (mime := negotiate _).
  rewrite !bind_emit.
  destruct (initialAudioState host); unfold bind; cbn [fst snd emit ret app];
    destruct (fst loop); reflexivity.
Qed.

Lemma stopRecording_run mime chunks audio :
  fst (stopRecording host mime chunks audio)
    = Resolved (newBlob (dataavailable chunks (dataAtStop host)) mime) /\
  milestones (snd (stopRecording host mime chunks audio)) = [].
Proof. unfold stopRecording. destruct audio; now split. Qed.

Lemma setupTrace_milestones : milestones (setupTrace host) = [].
Proof. unfold setupTrace. now destruct (initialAudioState host). Qed.

Lemma setupTrace_leaves_running :
  count isRecorderStop (setupTrace host) = 0%nat /\
  count isAudioClose (setupTrace host) = 0%nat.
Proof. unfold setupTrace. now destruct (initialAudioState host). Qed.

(** A run that resolves has gone through the whole loop and [onstop]. *)
Lemma stitchVideos_resolved videos blob :
  fst (stitchVideos host videos) = Resolved blob ->
  blob = newBlob (dataavailable [] (arrivals host (length videos)))
                 (negotiate (isTypeSupported host)).
Proof.
  intros Hres.
  destruct videos as [|v vs]; [discriminate|].
  destruct (context2d host) eqn:Hctx.
  - rewrite stitchVideos_running in Hres by (trivial; discriminate).
    cbv zeta in Hres.
    destruct (fst (processClips _ _ _ _ _)) as [chunks| |] eqn:Hloop;
      try discriminate.
    apply processClips_buffer in Hloop.
    cbn [fst] in Hres. rewrite (proj1 (stopRecording_run _ _ _)) in Hres.
    injection Hres as <-. unfold arrivals.
    now rewrite dataavailable_app, <- Hloop.
  - unfold stitchVideos in Hres. rewrite Hctx in Hres. discriminate.
Qed.

End SequencerFacts.

(** ** What the expected milestones say *)

Lemma expected_indices : forall clips total i,
  map currentClipIndex (progressOf (expectedMilestones total i clips))
    = seq (i + 1) (length clips).
Proof.
  induction clips as [|v clips IH]; intros total i; [reflexivity|].
  cbn [expectedMilestones progressOf flat_map app map length seq currentClipIndex].
  f_equal. fold (progressOf (expectedMilestones total (S i) clips)).
  now rewrite IH.
Qed.

Lemma expected_totals : forall clips total i,
  Forall (fun p => totalClips p = total)
         (progressOf (expectedMilestones total i clips)).
Proof.
  induction clips as [|v clips IH]; intros total i; [constructor|].
  cbn [expectedMilestones progressOf flat_map app].
  constructor; [reflexivity|apply IH].
Qed.

Lemma expected_started : forall clips total i,
  startedOf (expectedMilestones total i clips) = map file clips.
Proof.
  induction clips as [|v clips IH]; intros total i; [reflexivity|].
  cbn [expectedMilestones startedOf flat_map app map].
  f_equal. apply IH.
Qed.

(** ** ClipSequencer: the claims *)

(** C5.  On the empty clip list [stitchVideos] rejects with the error
    "No videos to stitch" and has made no call on the host at all: no
    canvas, no audio context, no stream, no recorder created or started. *)
Theorem empty_input_rejected_before_any_effect (host : Host) :
  stitchVideos host [] = (Rejected (JsError "No videos to stitch"), []) /\
  count isNewMediaRecorder (snd (stitchVideos host [])) = 0%nat /\
  count isRecorderStart (snd (stitchVideos host [])) = 0%nat.
Proof. repeat split. Qed.

(** C10.  When [canvas.getContext('2d')] gives null on a non-empty list,
    [stitchVideos] throws "Could not create canvas context" right after
    asking for the context: the trace holds the canvas and the request, and
    no audio context, capture stream or recorder. *)
Theorem missing_context_rejected_before_audio_and_recorder
  (host : Host) (videos : list VideoFile) :
  videos <> [] -> context2d host = false ->
  stitchVideos host videos =
    (Rejected (JsError "Could not create canvas context"),
     [CreateCanvas CANVAS_WIDTH CANVAS_HEIGHT; GetContext2d]).
Proof.
  intros Hne Hctx. unfold stitchVideos.
  destruct videos as [|v vs]; [contradiction|].
  change (length (v :: vs) =? 0)%nat with false. cbv iota.
  rewrite Hctx. reflexivity.
Qed.

Lemma missing_context_witness :
  stitchVideos bareHost [clipA] =
    (Rejected (JsError "Could not create canvas context"),
     [CreateCanvas CANVAS_WIDTH CANVAS_HEIGHT; GetContext2d]).
Proof.
  apply (missing_context_rejected_before_audio_and_recorder bareHost [clipA]).
  - discriminate.
  - reflexivity.
Defined.

(** C2.  On a non-empty list of N clips whose drivers all resolve,
    [onProgress] is called exactly N+1 times: before the video element of
    clip i is made, with [currentClipIndex = i+1] and the clip's name, so
    the indices run 1, 2, ..., N; and a last time after the last clip with
    [currentClipIndex = N].  Every call carries [totalClips = N]. *)
Theorem progress_of_successful_run (host : Host) (videos : list VideoFile) :
  videos <> [] -> context2d host = true ->
  (forall i v, nth_error videos i = Some v ->
               driverOutcome host i v = Resolved tt) ->
  let N := length videos in
  let t := snd (stitchVideos host videos) in
  length (progressCalls t) = (N + 1)%nat /\
  map currentClipIndex (progressCalls t) = seq 1 N ++ [N] /\
  Forall (fun p => totalClips p = N) (progressCalls t) /\
  milestones t = expectedMilestones N 0 videos ++ [Progress (finalProgress N)].
Proof.
  intros Hne Hctx Hall N t.
  assert (Hm : milestones t
               = expectedMilestones N 0 videos ++ [Progress (finalProgress N)]).
  { unfold t. rewrite stitchVideos_running by assumption. cbv zeta.
    destruct (processClips_resolved host videos N 0 []) as [[chunks Ho] Hloop].
    { intros j v Hj. now apply Hall. }
    fold N. rewrite Ho. cbn [snd].
    rewrite !milestones_app, setupTrace_milestones, Hloop. cbn [app milestones].
    now rewrite (proj2 (stopRecording_run _ _ _ _)). }
  assert (Hi : map currentClipIndex (progressCalls t) = seq 1 N ++ [N]).
  { unfold progressCalls, progressOf. rewrite Hm, flat_map_app, map_app.
    fold (progressOf (expectedMilestones N 0 videos)).
    now rewrite expected_indices. }
  repeat split; trivial.
  - rewrite <- (length_map currentClipIndex), Hi, length_app, length_seq.
    reflexivity.
  - unfold progressCalls, progressOf. rewrite Hm, flat_map_app.
    apply Forall_app; split; [apply expected_totals|].
    repeat constructor.
Qed.

Lemma progress_witness :
  let t := snd (stitchVideos goodHost [clipA; clipB]) in
  length (progressCalls t) = 3%nat /\
  map currentClipIndex (progressCalls t) = [1; 2; 2]%nat /\
  Forall (fun p => totalClips p = 2%nat) (progressCalls t) /\
  milestones t =
    expectedMilestones 2 0 [clipA; clipB] ++ [Progress (finalProgress 2)].
Proof.
  apply (progress_of_successful_run goodHost [clipA; clipB]).
  - discriminate.
  - reflexivity.
  - intros [|[|[|i]]] v Hv; try discriminate; injection Hv as <-; reflexivity.
Defined.

(** C1, as the code has it.  When the driver of clip i rejects with
    [cause] and the drivers before it resolved, [stitchVideos] rejects with
    [cause] itself, so there is no output; video elements were made for
    clips 0..i only and [onProgress] was called for the indices 1..i+1
    only, so the remaining clips are not started and the final progress
    call is not made. *)
Theorem driver_rejection_aborts_run
  (host : Host) (videos : list VideoFile) (i : nat) (v : VideoFile)
  (cause : JsValue) :
  context2d host = true ->
  nth_error videos i = Some v ->
  (forall j w, (j < i)%nat -> nth_error videos j = Some w ->
               driverOutcome host j w = Resolved tt) ->
  driverOutcome host i v = Rejected cause ->
  let run := stitchVideos host videos in
  fst run = Rejected cause /\
  startedClips (snd run) = map file (firstn (S i) videos) /\
  map currentClipIndex (progressCalls (snd run)) = seq 1 (S i).
Proof.
  intros Hctx Hi Hbefore Hrej run.
  assert (Hne : videos <> []) by (intros ->; destruct i; discriminate).
  destruct (processClips_rejected host videos (length videos) 0 [] i v cause)
    as [Ho Hm]; trivial.
  assert (Hlen : length (firstn (S i) videos) = S i).
  { apply firstn_length_le. apply Nat.le_succ_l.
    apply nth_error_Some. now rewrite Hi. }
  unfold run. rewrite stitchVideos_running by assumption. cbv zeta.
  rewrite Ho. cbn [fst snd]. split; [reflexivity|].
  unfold startedClips, progressCalls.
  rewrite milestones_app, setupTrace_milestones, Hm. cbn [app].
  now rewrite expected_started, expected_indices, Hlen.
Qed.

Lemma driver_rejection_witness :
  let run := stitchVideos secondFailsHost [clipA; clipB] in
  fst run = Rejected (MediaErrorEvent 3) /\
  startedClips (snd run) = [file clipA; file clipB] /\
  map currentClipIndex (progressCalls (snd run)) = [1; 2]%nat.
Proof.
  apply (driver_rejection_aborts_run secondFailsHost [clipA; clipB] 1 clipB).
  - reflexivity.
  - reflexivity.
  - intros [|j] w Hj Hw; [injection Hw as <-; reflexivity|lia].
  - reflexivity.
Defined.

(** The claim C1 as the specification states it fails on the second
    scenario of its own: the second clip's decoding fails, the run rejects
    with the error event itself and not with a [ClipProcessingError], and
    the trace holds no [stop()] of the recorder and no [close()] of the
    audio context. *)
Lemma error_is_not_wrapped_nor_is_the_encoder_stopped :
  let run := stitchVideos secondFailsHost [clipA; clipB] in
  driverOutcome secondFailsHost 1 clipB = Rejected (MediaErrorEvent 3) /\
  fst run = Rejected (MediaErrorEvent 3) /\
  fst run <> Rejected (ClipProcessingError 1 (MediaErrorEvent 3)) /\
  count isRecorderStop (snd run) = 0%nat /\
  count isAudioClose (snd run) = 0%nat.
Proof.
  cbv zeta. split; [reflexivity|]. split; [reflexivity|].
  split; [|split; reflexivity].
  vm_compute. discriminate.
Qed.

(** On every rejected run that got as far as the loop the recorder is
    left recording and the audio context open. *)
Lemma rejected_run_leaves_recorder_running
  (host : Host) (videos : list VideoFile) (e : JsValue) :
  videos <> [] -> context2d host = true ->
  fst (stitchVideos host videos) = Rejected e ->
  count isRecorderStop (snd (stitchVideos host videos)) = 0%nat /\
  count isAudioClose (snd (stitchVideos host videos)) = 0%nat.
Proof.
  intros Hne Hctx. rewrite stitchVideos_running by assumption. cbv zeta.
  pose proof (processClips_effects host videos (length videos) 0 []) as Hl.
  destruct (fst (processClips _ _ _ _ _)) as [chunks| |] eqn:Hloop.
  - cbn [fst]. rewrite (proj1 (stopRecording_run _ _ _ _)). discriminate.
  - intros _. cbn [snd]. rewrite !count_app.
    destruct (setupTrace_leaves_running host) as [-> ->].
    split; apply count_none; eapply Forall_impl; try exact Hl;
      now intros a [H1 H2].
  - discriminate.
Qed.

(** ** PlaybackDriver: release of the per-clip resources *)

Section DriverFacts.
Variable (f : File) (width height : Z).

Lemma drawFrame_no_revoke v :
  count isRevokeObjectURL (fst (drawFrame f width height v)) = 0%nat.
Proof. unfold drawFrame. now destruct (paused v || ended v)%bool. Qed.

(** Only the handler that resolves revokes the object URL. *)
Lemma deliver_revokes_only_on_resolve st ev :
  settled (deliver f width height st ev) <> Some Resolve ->
  count isRevokeObjectURL (effects (deliver f width height st ev)) = 0%nat.
Proof.
  destruct ev as [a|v|e|v| |e]; cbn [deliver]; intros Hs.
  - now destruct a.
  - destruct (playPending st); [apply drawFrame_no_revoke|reflexivity].
  - now destruct (playPending st).
  - destruct (frameRequested st); [apply drawFrame_no_revoke|reflexivity].
  - now contradiction Hs.
  - cbn [onerror effects]. unfold disconnectSource. now destruct (source st).
Qed.

(** Every rejecting exit of the driver leaves the URL it made unrevoked. *)
Lemma rejected_driver_never_revokes events e :
  fst (playVideoToCanvas f width height events) = Rejected e ->
  count isCreateObjectURL (snd (playVideoToCanvas f width height events)) <> 0%nat /\
  count isRevokeObjectURL (snd (playVideoToCanvas f width height events)) = 0%nat.
Proof.
  unfold playVideoToCanvas. rewrite !bind_emit. cbn [fst snd].
  intros Hrej. split; [discriminate|].
  change (count isRevokeObjectURL
            (snd (dispatch f width height initialDriver events)) = 0%nat).
  revert Hrej. generalize initialDriver.
  induction events as [|ev rest IH]; intros st; cbn [dispatch];
    [discriminate|].
  pose proof (deliver_revokes_only_on_resolve st ev) as Hd.
  destruct (settled (deliver f width height st ev)) as [[|e']|];
    cbn [fst snd]; intros Hrej.
  - discriminate.
  - apply Hd. discriminate.
  - rewrite count_app, Hd by discriminate. now apply IH.
Qed.

(** The resolving exit disconnects the source, if there is one, and
    revokes the URL as its last two effects. *)
Lemma resolved_driver_releases events :
  fst (playVideoToCanvas f width height events) = Resolved tt ->
  exists t st,
    snd (playVideoToCanvas f width height events)
      = t ++ disconnectSource f st ++ [RevokeObjectURL f].
Proof.
  unfold playVideoToCanvas. rewrite !bind_emit. cbn [fst snd].
  generalize initialDriver. intros st0 Hres.
  enough (exists t st, snd (dispatch f width height st0 events)
                       = t ++ disconnectSource f st ++ [RevokeObjectURL f])
    as (t & st & ->).
  { now exists (CreateVideo f :: CreateObjectURL f :: t), st. }
  revert st0 Hres.
  induction events as [|ev rest IH]; intros st; cbn [dispatch];
    [discriminate|].
  destruct (settled (deliver f width height st ev)) as [[|e']|] eqn:Hs;
    cbn [fst snd]; intros Hres.
  - exists [], st. destruct ev as [a|v|e|v| |e]; cbn [deliver] in *;
      try discriminate; try reflexivity;
      (destruct (playPending st) + destruct (frameRequested st));
      discriminate.
  - discriminate.
  - destruct (IH _ Hres) as (t & st' & ->).
    exists (effects (deliver f width height st ev) ++ t), st'.
    now rewrite app_assoc.
Qed.

End DriverFacts.

(** C3, at the input on which the code departs from it.  A clip loads,
    its audio is attached, one frame is drawn and then decoding fails: the
    driver rejects with the error event, having disconnected the audio
    source as its last effect, and the object URL it made for the clip is
    never revoked. *)
Theorem decode_error_leaves_object_url_unrevoked :
  let run := playVideoToCanvas (file clipB) CANVAS_WIDTH CANVAS_HEIGHT decodeFails in
  fst run = Rejected (MediaErrorEvent 3) /\
  count isCreateObjectURL (snd run) = 1%nat /\
  count isDisconnect (snd run) = 1%nat /\
  last (snd run) GetContext2d = Disconnect (file clipB) /\
  count isRevokeObjectURL (snd run) = 0%nat.
Proof. cbv zeta. repeat split. Qed.

(** The natural end of the same clip releases both. *)
Example natural_end_releases :
  let run := playVideoToCanvas (file clipB) CANVAS_WIDTH CANVAS_HEIGHT playsToEnd in
  fst run = Resolved tt /\
  count isDisconnect (snd run) = 1%nat /\
  count isRevokeObjectURL (snd run) = 1%nat.
Proof. cbv zeta. repeat split. Qed.

(** ** Encoder: negotiation *)




Lemma negotiate_cases (supported : string -> bool) :
  negotiate supported =
  if supported "video/mp4;codecs=avc1,mp4a.40.2" then "video/mp4;codecs=avc1,mp4a.40.2"
  else if supported "video/mp4;codecs=avc1" then "video/mp4;codecs=avc1"
  else if supported "video/mp4" then "video/mp4"
  else if supported "video/webm;codecs=h264" then "video/webm;codecs=h264"
  else if supported "video/webm;codecs=vp9,opus" then "video/webm;codecs=vp9,opus"
  else "video/webm".
Proof.
  unfold negotiate, mimeTypes. cbn [selectMimeType].
  repeat match goal with
         | |- context [if supported ?t then _ else _] =>
             destruct (supported t); try reflexivity
         end.
Qed.

Lemma negotiate_supported (host : Host) :
  supportsListed host ->
  isTypeSupported host (negotiate (isTypeSupported host)) = true.
Proof.
  unfold supportsListed. rewrite negotiate_cases. cbn [existsb mimeTypes].
  destruct (isTypeSupported host "video/mp4;codecs=avc1,mp4a.40.2") eqn:E1;
    [now rewrite E1|].
  destruct (isTypeSupported host "video/mp4;codecs=avc1") eqn:E2;
    [now rewrite E2|].
  destruct (isTypeSupported host "video/mp4") eqn:E3; [now rewrite E3|].
  destruct (isTypeSupported host "video/webm;codecs=h264") eqn:E4;
    [now rewrite E4|].
  destruct (isTypeSupported host "video/webm;codecs=vp9,opus") eqn:E5;
    [now rewrite E5|].
  cbn [orb]. now rewrite Bool.orb_false_r.
Qed.

Lemma dataavailable_filter : forall events chunks,
  dataavailable chunks events = chunks ++ filter nonEmpty events.
Proof.
  unfold dataavailable.
  induction events as [|data events IH]; intros chunks; cbn [fold_left filter].
  - now rewrite app_nil_r.
  - rewrite IH. unfold ondataavailable, nonEmpty.
    destruct (0 <? size data)%nat; [|reflexivity].
    now rewrite <- app_assoc.
Qed.

(** A run whose drivers all resolve goes through the loop, the final
    progress call, [stop()], the blob and the closing of the audio context. *)
Lemma run_to_the_end (host : Host) (videos : list VideoFile) :
  videos <> [] -> context2d host = true ->
  (forall i v, nth_error videos i = Some v ->
               driverOutcome host i v = Resolved tt) ->
  exists before closing,
    stitchVideos host videos
    = (Resolved (newBlob (filter nonEmpty (arrivals host (length videos)))
                         (negotiate (isTypeSupported host))),
       before ++ RecorderStop
         :: NewBlob (negotiate (isTypeSupported host)) :: closing) /\
    In (NewMediaRecorder (negotiate (isTypeSupported host))) before /\
    In RecorderStart before.
Proof.
  intros Hne Hctx Hall.
  destruct (processClips_resolved host videos (length videos) 0 [])
    as [[chunks Ho] _].
  { intros j v Hj. now apply Hall. }
  pose proof (processClips_buffer host _ _ _ _ _ Ho) as Hchunks.
  exists (setupTrace host ++ snd (processClips host (length videos) 0 videos [])
          ++ [OnProgress (finalProgress (length videos))]).
  exists (match audioAfterSetup host with Closed => [] | _ => [AudioClose] end).
  assert (Hsetup : In (NewMediaRecorder (negotiate (isTypeSupported host)))
                      (setupTrace host) /\ In RecorderStart (setupTrace host)).
  { unfold setupTrace. destruct (initialAudioState host); cbn; tauto. }
  split; [|split; apply in_or_app; left; apply Hsetup].
  rewrite stitchVideos_running by assumption. cbv zeta. rewrite Ho.
  unfold stopRecording.
  assert (Hblob : newBlob (dataavailable chunks (dataAtStop host))
                          (negotiate (isTypeSupported host))
                  = newBlob (filter nonEmpty (arrivals host (length videos)))
                            (negotiate (isTypeSupported host))).
  { unfold arrivals. rewrite Hchunks, <- dataavailable_app.
    now rewrite dataavailable_filter. }
  rewrite <- !app_assoc. cbn [app].
  destruct (audioAfterSetup host); cbn [fst snd bind emit ret app];
    rewrite Hblob; reflexivity.
Qed.



(** ** Encoder: the chunk buffer *)

(** C9.  [ondataavailable] leaves the buffer as it is on a chunk of size
    zero and appends any other chunk at the end; so after any sequence of
    events the buffer holds its chunks of positive size, in arrival order,
    after what it held before.  A run whose drivers all resolve (on a host
    that supports a listed type) calls [stop()], builds the blob and
    resolves with it, and the blob is the concatenation, in arrival order,
    of the chunks of positive size among all that arrived during the clips
    and at [stop()]. *)
Theorem chunk_buffer_keeps_nonempty_chunks_in_order (host : Host) :
  (forall chunks data, size data = 0%nat -> ondataavailable chunks data = chunks) /\
  (forall chunks data, (0 < size data)%nat ->
                       ondataavailable chunks data = chunks ++ [data]) /\
  (forall chunks events,
     dataavailable chunks events
       = chunks ++ filter (fun data => (0 <? size data)%nat) events) /\
  (forall videos,
     supportsListed host -> videos <> [] -> context2d host = true ->
     (forall i v, nth_error videos i = Some v ->
                  driverOutcome host i v = Resolved tt) ->
     exists before closing,
       stitchVideos host videos
       = (Resolved
            {| blobData :=
                 concat (map blobData
                           (filter (fun data => (0 <? size data)%nat)
                                   (arrivals host (length videos))));
               blobType := negotiate (isTypeSupported host) |},
          before ++ RecorderStop
            :: NewBlob (negotiate (isTypeSupported host)) :: closing)).
Proof.
  split; [|split; [|split]].
  - intros chunks data Hz. unfold ondataavailable. now rewrite Hz.
  - intros chunks data Hpos. unfold ondataavailable.
    apply Nat.ltb_lt in Hpos. now rewrite Hpos.
  - intros chunks events. apply dataavailable_filter.
  - intros videos _ Hne Hctx Hall.
    destruct (run_to_the_end host videos Hne Hctx Hall)
      as (before & closing & Hrun & _).
    now exists before, closing.
Qed.

Lemma chunk_buffer_witness :
  ondataavailable [chunk [Byte.x1a]] (chunk []) = [chunk [Byte.x1a]] /\
  ondataavailable [chunk [Byte.x1a]] (chunk [Byte.x45])
    = [chunk [Byte.x1a]; chunk [Byte.x45]] /\
  exists before closing,
    stitchVideos goodHost [clipA; clipB]
    = (Resolved
         {| blobData :=
              concat (map blobData
                        (filter (fun data => (0 <? size data)%nat)
                                (arrivals goodHost (length [clipA; clipB]))));
            blobType := negotiate (isTypeSupported goodHost) |},
       before ++ RecorderStop
         :: NewBlob (negotiate (isTypeSupported goodHost)) :: closing).
Proof.
  split; [|split].
  - apply (proj1 (chunk_buffer_keeps_nonempty_chunks_in_order goodHost)).
    reflexivity.
  - apply (proj1 (proj2 (chunk_buffer_keeps_nonempty_chunks_in_order goodHost))).
    cbn. lia.
  - apply (proj2 (proj2 (proj2
             (chunk_buffer_keeps_nonempty_chunks_in_order goodHost)))
             [clipA; clipB]).
    + reflexivity.
    + discriminate.
    + reflexivity.
    + intros [|[|[|i]]] v Hv; try discriminate; injection Hv as <-; reflexivity.
Defined.

(** ** PlaybackDriver: audio attach *)

Lemma dispatch_attached f w h : forall events st st',
  playPending st = playPending st' ->
  fst (dispatch f w h st (map attached events)) = fst (dispatch f w h st' events).
Proof.
  induction events as [|ev rest IH]; intros st st' Hp; [reflexivity|].
  cbn [map dispatch].
  destruct ev as [a|v|e|v| |e]; cbn [attached deliver].
  - cbn [onloadedmetadata settled after fst]. now apply IH.
  - rewrite Hp. destruct (playPending st') eqn:Hp';
      cbn [onplayFulfilled skip settled after fst]; apply IH; cbn; congruence.
  - rewrite Hp. destruct (playPending st') eqn:Hp'; cbn [skip settled after fst];
      [reflexivity|apply IH; congruence].
  - destruct (frameRequested st), (frameRequested st');
      cbn [onanimationFrame skip settled after fst]; now apply IH.
  - reflexivity.
  - reflexivity.
Qed.

Lemma driverOutcome_attachAlways host i v :
  driverOutcome (attachAlways host) i v = driverOutcome host i v.
Proof.
  unfold driverOutcome, playVideoToCanvas. rewrite !bind_emit. cbn [fst].
  now apply dispatch_attached.
Qed.

Lemma processClips_attachAlways host : forall rest total i chunks,
  fst (processClips (attachAlways host) total i rest chunks)
    = fst (processClips host total i rest chunks).
Proof.
  induction rest as [|v rest IH]; intros total i chunks; [reflexivity|].
  rewrite !processClips_cons. cbv zeta.
  pose proof (driverOutcome_attachAlways host i v) as Hd.
  unfold driverOutcome in Hd. rewrite Hd.
  destruct (fst (playVideoToCanvas _ _ _ (playback host i))); cbn [fst];
    [apply IH|reflexivity|reflexivity].
Qed.

Lemma stitchVideos_attachAlways host videos :
  fst (stitchVideos (attachAlways host) videos) = fst (stitchVideos host videos).
Proof.
  destruct videos as [|v vs]; [reflexivity|].
  destruct (context2d host) eqn:Hctx.
  - rewrite !stitchVideos_running by (trivial; discriminate). cbv zeta.
    rewrite processClips_attachAlways.
    destruct (fst (processClips host _ _ _ _)); cbn [fst];
      rewrite ?(proj1 (stopRecording_run _ _ _ _)); reflexivity.
  - unfold stitchVideos. cbn [attachAlways context2d]. now rewrite Hctx.
Qed.

Lemma same_driver_state st :
  frameRequested st = true ->
  {| source := source st; playPending := playPending st; frameRequested := true |}
  = st.
Proof. destruct st as [s p r]. cbn. now intros ->. Qed.

(** Each tick on which the video is playing clears the target, draws
    the frame and asks for the next tick. *)
Lemma dispatch_ticks f w h : forall frames st tail,
  frameRequested st = true -> Forall isPlaying frames ->
  dispatch f w h st (map AnimationFrame frames ++ tail)
  = (fst (dispatch f w h st tail),
     flat_map (tickOf f w h) frames ++ snd (dispatch f w h st tail)).
Proof.
  induction frames as [|v frames IH]; intros st tail Hr Hall.
  - cbn [map app flat_map]. now destruct (dispatch f w h st tail).
  - inversion Hall as [|? ? Hv Htl]; subst. unfold isPlaying in Hv.
    cbn [map app flat_map dispatch deliver]. rewrite Hr.
    cbn [onanimationFrame settled effects after]. unfold drawFrame. rewrite Hv.
    cbn [fst snd]. rewrite (same_driver_state st Hr).
    rewrite IH by assumption. cbn [fst snd]. unfold tickOf.
    now rewrite <- app_assoc.
Qed.

(** From [play()] fulfilled to the end of the clip. *)
Lemma dispatch_plays f w h st first frames :
  playPending st = true -> Forall isPlaying (first :: frames) ->
  dispatch f w h st (PlayFulfilled first :: map AnimationFrame frames ++ [Ended])
  = (Resolved tt,
     flat_map (tickOf f w h) (first :: frames)
       ++ disconnectSource f st ++ [RevokeObjectURL f]).
Proof.
  intros Hp Hall. inversion Hall as [|? ? Hfirst Hframes]; subst.
  unfold isPlaying in Hfirst.
  cbn [dispatch deliver]. rewrite Hp.
  cbn [onplayFulfilled settled effects after]. unfold drawFrame.
  rewrite Hfirst. cbn [fst snd]. rewrite Bool.orb_true_r.
  rewrite dispatch_ticks by (trivial; reflexivity).
  cbn [dispatch deliver onended settled effects fst snd flat_map].
  unfold disconnectSource. cbn [source]. unfold tickOf at 2.
  now rewrite <- app_assoc.
Qed.

(** A clip that loads, plays frame after frame and ends: the whole call,
    whatever became of the audio attach. *)
Lemma playsThrough_run f w h a first frames :
  Forall isPlaying (first :: frames) ->
  playVideoToCanvas f w h
    (Loadedmetadata a :: PlayFulfilled first :: map AnimationFrame frames ++ [Ended])
  = (Resolved tt,
     CreateVideo f :: CreateObjectURL f
       :: effects (onloadedmetadata f initialDriver a)
       ++ flat_map (tickOf f w h) (first :: frames)
       ++ disconnectSource f (after (onloadedmetadata f initialDriver a))
       ++ [RevokeObjectURL f]).
Proof.
  intros Hall.
  unfold playVideoToCanvas. rewrite !bind_emit. cbn [fst snd].
  change (dispatch f w h initialDriver
            (Loadedmetadata a :: PlayFulfilled first
               :: map AnimationFrame frames ++ [Ended]))
    with (fst (dispatch f w h (after (onloadedmetadata f initialDriver a))
                 (PlayFulfilled first :: map AnimationFrame frames ++ [Ended])),
          effects (onloadedmetadata f initialDriver a)
            ++ snd (dispatch f w h (after (onloadedmetadata f initialDriver a))
                      (PlayFulfilled first :: map AnimationFrame frames ++ [Ended]))).
  rewrite dispatch_plays by (trivial; reflexivity).
  reflexivity.
Qed.

Lemma playsThrough_resolves host i v :
  playsThrough (playback host i) -> driverOutcome host i v = Resolved tt.
Proof.
  intros (a & first & frames & Hall & Hev). unfold driverOutcome.
  now rewrite Hev, playsThrough_run.
Qed.

(** C7.  When creating or connecting the clip's audio source throws in
    [onloadedmetadata], the handler catches it: it logs the exception as a
    warning, makes no connection, still calls [play()] and does not settle
    the promise.  The clip is then captured as any other: when it plays
    frame after frame and ends, every tick clears the target, draws the
    frame and asks for the next one, and the driver resolves, having
    connected nothing (and disconnecting the source only if one was
    created).  So a run whose clips all play through resolves whatever
    became of their audio, and every run settles as it would if every
    attach had succeeded. *)
Theorem audio_attach_failure_is_not_fatal
  (f : File) (width height : Z) (st : DriverState) (e : JsValue)
  (first : VideoState) (frames : list VideoState) :
  Forall isPlaying (first :: frames) ->
  let script a :=
    Loadedmetadata a :: PlayFulfilled first :: map AnimationFrame frames ++ [Ended] in
  (onloadedmetadata f st (CreateSourceThrows e)
   = {| effects := [ConsoleWarn e; Play f];
        after := {| source := source st; playPending := true;
                    frameRequested := frameRequested st |};
        settled := None |}) /\
  (onloadedmetadata f st (ConnectThrows e)
   = {| effects := [CreateMediaElementSource f; ConsoleWarn e; Play f];
        after := {| source := Some (MediaElementSource f); playPending := true;
                    frameRequested := frameRequested st |};
        settled := None |}) /\
  (playVideoToCanvas f width height (script (CreateSourceThrows e))
   = (Resolved tt,
      [CreateVideo f; CreateObjectURL f; ConsoleWarn e; Play f]
        ++ flat_map (tickOf f width height) (first :: frames)
        ++ [RevokeObjectURL f])) /\
  (playVideoToCanvas f width height (script (ConnectThrows e))
   = (Resolved tt,
      [CreateVideo f; CreateObjectURL f; CreateMediaElementSource f;
       ConsoleWarn e; Play f]
        ++ flat_map (tickOf f width height) (first :: frames)
        ++ [Disconnect f; RevokeObjectURL f])) /\
  (forall host videos,
     supportsListed host -> videos <> [] -> context2d host = true ->
     (forall i, (i < length videos)%nat -> playsThrough (playback host i)) ->
     exists before closing,
       stitchVideos host videos
       = (Resolved (newBlob (filter nonEmpty (arrivals host (length videos)))
                            (negotiate (isTypeSupported host))),
          before ++ RecorderStop
            :: NewBlob (negotiate (isTypeSupported host)) :: closing)) /\
  (forall host videos,
     fst (stitchVideos host videos) = fst (stitchVideos (attachAlways host) videos)).
Proof.
  intros Hall script.
  split; [reflexivity|]. split; [reflexivity|].
  split; [|split; [|split]].
  - unfold script. now rewrite playsThrough_run.
  - unfold script. now rewrite playsThrough_run.
  - intros host videos _ Hne Hctx Hplay.
    destruct (run_to_the_end host videos Hne Hctx) as (before & closing & Hrun & _).
    { intros i v Hv. apply playsThrough_resolves, Hplay.
      apply nth_error_Some. now rewrite Hv. }
    now exists before, closing.
  - intros host videos. symmetry. apply stitchVideos_attachAlways.
Qed.

Lemma audio_attach_failure_witness :
  playVideoToCanvas (file clipA) CANVAS_WIDTH CANVAS_HEIGHT
    (Loadedmetadata (ConnectThrows (DOMException "InvalidAccessError"))
       :: PlayFulfilled (playing 1920 1080)
       :: map AnimationFrame [playing 1920 1080] ++ [Ended])
  = (Resolved tt,
     [CreateVideo (file clipA); CreateObjectURL (file clipA);
      CreateMediaElementSource (file clipA);
      ConsoleWarn (DOMException "InvalidAccessError"); Play (file clipA)]
       ++ flat_map (tickOf (file clipA) CANVAS_WIDTH CANVAS_HEIGHT)
            [playing 1920 1080; playing 1920 1080]
       ++ [Disconnect (file clipA); RevokeObjectURL (file clipA)]).
Proof.
  apply (proj1 (proj2 (proj2 (proj2
           (audio_attach_failure_is_not_fatal (file clipA) CANVAS_WIDTH
              CANVAS_HEIGHT initialDriver (DOMException "InvalidAccessError")
              (playing 1920 1080) [playing 1920 1080]
              ltac:(repeat constructor)))))).
Defined.

(** A run in which no clip's audio could be attached resolves. *)
Example silent_run_resolves :
  fst (stitchVideos silentHost [clipA; clipB])
    = Resolved {| blobData := [Byte.x1a; Byte.x45; Byte.x1a; Byte.x45; Byte.xdf];
                  blobType := "video/webm;codecs=vp9,opus" |}.
Proof. reflexivity. Qed.

(** ** FrameCompositor: frames without area *)

(** Zero times any double is a zero or NaN. *)
Lemma zero_times (s : float) :
  PrimFloat.is_nan (0 * s)%float = true \/ PrimFloat.is_zero (0 * s)%float = true.
Proof.
  unfold PrimFloat.is_nan, PrimFloat.is_zero.
  rewrite !FloatAxioms.eqb_spec, mul_spec.
  change (Prim2SF 0) with (S754_zero false).
  unfold SF64mul, SFmul.
  destruct (Prim2SF s) as [b|b| |b m e]; cbn; auto.
Qed.

Lemma no_area (x : float) :
  PrimFloat.is_nan x = true \/ PrimFloat.is_zero x = true ->
  (finite x && negb (PrimFloat.is_zero x))%bool = false.
Proof.
  unfold finite. intros [-> | ->]; [reflexivity|].
  now rewrite Bool.andb_false_r.
Qed.

(** A frame with a side of zero pixels gives a rectangle that
    [drawImage] does not paint. *)
Lemma zero_side_is_not_painted (width height vw vh : Z) :
  vw = 0%Z \/ vh = 0%Z ->
  paints (frameRect float width height vw vh) = false.
Proof.
  intros Hzero. unfold paints, frameRect, drawRect. cbn [rx ry rw rh].
  destruct Hzero as [-> | ->]; cbn [ofZ nmul float_number];
    change (PrimFloat.of_uint63 (Uint63.of_Z 0)) with 0%float.
  - rewrite (no_area _ (zero_times _)). now rewrite Bool.andb_false_r.
  - rewrite (no_area (0 * _)%float (zero_times _)). apply Bool.andb_false_r.
Qed.

(** C8.  For a frame whose width or height is zero, a tick raises no
    error: neither the frame callback nor the continuation of [play()]
    settles the driver's promise.  When the video is paused or ended the
    tick is skipped whole; otherwise it clears the target to the background
    and calls [drawImage] with a rectangle of no area or of NaN, which
    paints nothing, so that the target shows the background alone, whatever
    it showed before. *)
Theorem zero_dimension_frame_leaves_the_background
  (f : File) (width height : Z) (st : DriverState) (v : VideoState)
  (shown : Raster) :
  videoWidth v = 0%Z \/ videoHeight v = 0%Z ->
  let tick := drawFrame f width height v in
  settled (deliver f width height st (AnimationFrame v)) = None /\
  settled (deliver f width height st (PlayFulfilled v)) = None /\
  ((paused v || ended v)%bool = true -> tick = ([], false)) /\
  ((paused v || ended v)%bool = false ->
   fst tick = [FillRect 0 0 width height;
               DrawImage f (frameRect float width height
                              (videoWidth v) (videoHeight v));
               RequestAnimationFrame] /\
   paints (frameRect float width height (videoWidth v) (videoHeight v)) = false /\
   raster width height shown (fst tick) = []).
Proof.
  intros Hzero tick.
  pose proof (zero_side_is_not_painted width height _ _ Hzero) as Hpaint.
  split; [|split; [|split]].
  - cbn [deliver]. now destruct (frameRequested st).
  - cbn [deliver]. now destruct (playPending st).
  - intros Hp. unfold tick, drawFrame. now rewrite Hp.
  - intros Hp. unfold tick, drawFrame. rewrite Hp. cbn [fst].
    split; [reflexivity|]. split; [exact Hpaint|].
    unfold raster. cbn [fold_left paint]. rewrite Hpaint.
    now rewrite !Z.eqb_refl.
Qed.

Lemma zero_dimension_witness :
  let tick := drawFrame (file clipA) CANVAS_WIDTH CANVAS_HEIGHT (playing 0 1080) in
  fst tick = [FillRect 0 0 CANVAS_WIDTH CANVAS_HEIGHT;
              DrawImage (file clipA)
                (frameRect float CANVAS_WIDTH CANVAS_HEIGHT 0 1080);
              RequestAnimationFrame] /\
  paints (frameRect float CANVAS_WIDTH CANVAS_HEIGHT 0 1080) = false /\
  raster CANVAS_WIDTH CANVAS_HEIGHT
         [(file clipB, frameRect float CANVAS_WIDTH CANVAS_HEIGHT 1920 1080)]
         (fst tick) = [].
Proof.
  apply (proj2 (proj2 (proj2
    (zero_dimension_frame_leaves_the_background (file clipA) CANVAS_WIDTH
       CANVAS_HEIGHT initialDriver (playing 0 1080)
       [(file clipB, frameRect float CANVAS_WIDTH CANVAS_HEIGHT 1920 1080)]
       (or_introl eq_refl))))).
  reflexivity.
Defined.

(** A frame with area is painted: the picture joins what the target
    shows after the background was cleared. *)
Example full_frame_is_painted :
  raster CANVAS_WIDTH CANVAS_HEIGHT []
         (fst (drawFrame (file clipA) CANVAS_WIDTH CANVAS_HEIGHT (playing 2560 720)))
  = [(file clipA, mkRect 0%float 180%float 1280%float 360%float)].
Proof. reflexivity. Qed.

(** ** FrameCompositor: the letterbox *)

Lemma forallFrom_spec (p : Z -> bool) : forall n z,
  forallFrom n z p = true ->
  forall k, (z <= k < z + Z.of_nat n)%Z -> p k = true.
Proof.
  induction n as [|n IH]; intros z Hall k Hk; [lia|].
  cbn [forallFrom] in Hall. apply andb_true_iff in Hall as [Hz Hrest].
  destruct (Z.eq_dec k z) as [->|Hne]; [exact Hz|].
  apply (IH (z + 1)%Z Hrest). lia.
Qed.

Lemma sides_checked :
  forallFrom (Z.to_nat MAX_SIDE) 1 sideChecked = true.
Proof. vm_compute. reflexivity. Qed.

Lemma side_checked (v : Z) : (1 <= v <= MAX_SIDE)%Z -> sideChecked v = true.
Proof.
  intros Hv. apply (forallFrom_spec sideChecked _ _ sides_checked).
  rewrite Z2Nat.id by (unfold MAX_SIDE; lia). lia.
Qed.

(** ** Order on the positive finite doubles *)

Lemma positiveFinite_SF (x : float) :
  positiveFinite x = true -> exists m e, Prim2SF x = S754_finite false m e.
Proof.
  unfold positiveFinite. rewrite !FloatAxioms.ltb_spec.
  change (Prim2SF 0) with (S754_zero false).
  change (Prim2SF infinity) with (S754_infinity false).
  destruct (Prim2SF x) as [s|s| |s m e]; try destruct s; cbn;
    try discriminate.
  intros _. now exists m, e.
Qed.

Lemma leb_SF (a b : float) m1 e1 m2 e2 :
  Prim2SF a = S754_finite false m1 e1 ->
  Prim2SF b = S754_finite false m2 e2 ->
  PrimFloat.leb a b = true <->
  ((e1 < e2)%Z \/ (e1 = e2 /\ (m1 <= m2)%positive)).
Proof.
  intros Ha Hb. rewrite FloatAxioms.leb_spec, Ha, Hb. unfold SFleb, SFcompare.
  change (Pos.compare_cont Eq m1 m2) with (Pos.compare m1 m2).
  destruct (Z.compare_spec e1 e2); destruct (Pos.compare_spec m1 m2);
    split; intros; try discriminate; try reflexivity; subst; lia.
Qed.

Lemma leb_refl (a : float) : positiveFinite a = true -> PrimFloat.leb a a = true.
Proof.
  intros Ha. destruct (positiveFinite_SF a Ha) as (m & e & E).
  apply (leb_SF a a m e m e E E). right. split; [reflexivity|lia].
Qed.

Lemma leb_trans (a b c : float) :
  positiveFinite a = true -> positiveFinite b = true -> positiveFinite c = true ->
  PrimFloat.leb a b = true -> PrimFloat.leb b c = true -> PrimFloat.leb a c = true.
Proof.
  intros Ha Hb Hc.
  destruct (positiveFinite_SF a Ha) as (m1 & e1 & E1).
  destruct (positiveFinite_SF b Hb) as (m2 & e2 & E2).
  destruct (positiveFinite_SF c Hc) as (m3 & e3 & E3).
  rewrite (leb_SF a b _ _ _ _ E1 E2), (leb_SF b c _ _ _ _ E2 E3),
    (leb_SF a c _ _ _ _ E1 E3).
  lia.
Qed.

(** [Math.min] gives its first argument when that is the smaller. *)
Lemma float_min_l (a b : float) :
  positiveFinite a = true -> positiveFinite b = true ->
  PrimFloat.leb a b = true -> float_min a b = a.
Proof.
  intros Ha Hb Hle.
  destruct (positiveFinite_SF a Ha) as (m1 & e1 & E1).
  destruct (positiveFinite_SF b Hb) as (m2 & e2 & E2).
  assert (Hnan : forall x m e, Prim2SF x = S754_finite false m e ->
                               PrimFloat.is_nan x = false).
  { intros x m e E. unfold PrimFloat.is_nan. rewrite FloatAxioms.eqb_spec, E.
    unfold SFeqb, SFcompare.
    change (Pos.compare_cont Eq m m) with (Pos.compare m m).
    now rewrite Z.compare_refl, Pos.compare_refl. }
  unfold float_min. rewrite (Hnan a _ _ E1), (Hnan b _ _ E2). cbn [orb].
  destruct (PrimFloat.ltb a b) eqn:Hlt; [reflexivity|].
  assert (Heq : a = b).
  { apply Prim2SF_inj. rewrite E1, E2.
    apply (leb_SF a b _ _ _ _ E1 E2) in Hle.
    rewrite FloatAxioms.ltb_spec, E1, E2 in Hlt. unfold SFltb, SFcompare in Hlt.
    change (Pos.compare_cont Eq m1 m2) with (Pos.compare m1 m2) in Hlt.
    destruct (Z.compare_spec e1 e2); destruct (Pos.compare_spec m1 m2);
      try discriminate; subst; try reflexivity; lia. }
  subst b. rewrite Hlt. now destruct (PrimFloat.get_sign a).
Qed.

Lemma float_min_r (a b : float) :
  positiveFinite a = true -> positiveFinite b = true ->
  PrimFloat.leb b a = true -> float_min a b = b.
Proof.
  intros Ha Hb Hle.
  destruct (PrimFloat.ltb b a) eqn:Hlt.
  - unfold float_min.
    destruct (positiveFinite_SF a Ha) as (m1 & e1 & E1).
    destruct (positiveFinite_SF b Hb) as (m2 & e2 & E2).
    assert (Hab : PrimFloat.ltb a b = false).
    { rewrite FloatAxioms.ltb_spec, E1, E2 in *. unfold SFltb, SFcompare in *.
      change (Pos.compare_cont Eq m1 m2) with (Pos.compare m1 m2).
      change (Pos.compare_cont Eq m2 m1) with (Pos.compare m2 m1) in Hlt.
      destruct (Z.compare_spec e1 e2); destruct (Z.compare_spec e2 e1);
        destruct (Pos.compare_spec m1 m2); destruct (Pos.compare_spec m2 m1);
        try discriminate; try reflexivity; subst; lia. }
    assert (Hnan : forall x m e, Prim2SF x = S754_finite false m e ->
                                 PrimFloat.is_nan x = false).
    { intros x m e E. unfold PrimFloat.is_nan. rewrite FloatAxioms.eqb_spec, E.
      unfold SFeqb, SFcompare.
      change (Pos.compare_cont Eq m m) with (Pos.compare m m).
      now rewrite Z.compare_refl, Pos.compare_refl. }
    now rewrite (Hnan a _ _ E1), (Hnan b _ _ E2), Hab, Hlt.
  - assert (Hba : float_min b a = b) by now apply float_min_l.
    assert (Heq : a = b).
    { destruct (positiveFinite_SF a Ha) as (m1 & e1 & E1).
      destruct (positiveFinite_SF b Hb) as (m2 & e2 & E2).
      apply Prim2SF_inj. rewrite E1, E2.
      apply (leb_SF b a _ _ _ _ E2 E1) in Hle.
      rewrite FloatAxioms.ltb_spec, E1, E2 in Hlt. unfold SFltb, SFcompare in Hlt.
      change (Pos.compare_cont Eq m2 m1) with (Pos.compare m2 m1) in Hlt.
      destruct (Z.compare_spec e2 e1); destruct (Pos.compare_spec m2 m1);
        try discriminate; subst; try reflexivity; lia. }
    now rewrite Heq in *.
Qed.

(** A factor that gets smaller at every step is decreasing. *)
Lemma decreasing (d : Z -> float) (B : Z) :
  (forall v, (1 <= v <= B)%Z ->
             positiveFinite (d v) = true /\ PrimFloat.leb (d (v + 1)%Z) (d v) = true) ->
  forall n v, (1 <= v)%Z -> (v + Z.of_nat n <= B)%Z ->
              PrimFloat.leb (d (v + Z.of_nat n)%Z) (d v) = true.
Proof.
  intros Hstep. induction n as [|n IH]; intros v Hv Hb.
  - rewrite Z.add_0_r. apply leb_refl. apply Hstep. lia.
  - replace (v + Z.of_nat (S n))%Z with ((v + Z.of_nat n) + 1)%Z by lia.
    apply (leb_trans _ (d (v + Z.of_nat n)%Z)).
    + replace (v + Z.of_nat n + 1)%Z with (v + Z.of_nat (S n))%Z by lia.
      apply Hstep. lia.
    + apply Hstep. lia.
    + apply Hstep. lia.
    + apply Hstep. lia.
    + apply IH; lia.
Qed.

Lemma frameRect_float (vw vh : Z) :
  frameRect float CANVAS_WIDTH CANVAS_HEIGHT vw vh
  = let scale := float_min (fitWidth vw) (fitHeight vh) in
    let w := nmul (ofZ vw) scale in
    let h := nmul (ofZ vh) scale in
    mkRect (ndiv (nsub (ofZ CANVAS_WIDTH) w) (ofZ 2))
           (ndiv (nsub (ofZ CANVAS_HEIGHT) h) (ofZ 2)) w h.
Proof. reflexivity. Qed.

Lemma side_facts (v : Z) :
  (1 <= v <= MAX_SIDE)%Z ->
  let tallest := ((CANVAS_HEIGHT * v - 1) / CANVAS_WIDTH)%Z in
  let widest := Z.min MAX_SIDE ((CANVAS_WIDTH * v - 1) / CANVAS_HEIGHT)%Z in
  let w := nmul (ofZ v) (fitWidth v) in
  let h := nmul (ofZ v) (fitHeight v) in
  (positiveFinite (fitWidth v) = true /\
   PrimFloat.leb (fitWidth (v + 1)) (fitWidth v) = true) /\
  (positiveFinite (fitHeight v) = true /\
   PrimFloat.leb (fitHeight (v + 1)) (fitHeight v) = true) /\
  ((1 <= tallest)%Z -> PrimFloat.leb (fitWidth v) (fitHeight tallest) = true) /\
  ((1 <= widest)%Z -> PrimFloat.leb (fitHeight v) (fitWidth widest) = true) /\
  ((16 * v <= MAX_SIDE)%Z -> fitWidth (16 * v) = fitHeight (9 * v)) /\
  (nextTo (ofZ CANVAS_WIDTH) w /\
   PrimFloat.leb (PrimFloat.abs (ndiv (nsub (ofZ CANVAS_WIDTH) w) (ofZ 2))) 0x1p-43
   = true) /\
  (nextTo (ofZ CANVAS_HEIGHT) h /\
   PrimFloat.leb (PrimFloat.abs (ndiv (nsub (ofZ CANVAS_HEIGHT) h) (ofZ 2))) 0x1p-44
   = true).
Proof.
  intros Hv. pose proof (side_checked v Hv) as Hc.
  unfold sideChecked in Hc. cbv zeta in Hc.
  do 10 (apply andb_true_iff in Hc; destruct Hc as [Hc ?]).
  assert (Hnext : forall t x, nextTob t x = true -> nextTo t x).
  { intros t x Hn. unfold nextTob in Hn.
    apply orb_true_iff in Hn as [Hn|Hn]; [apply orb_true_iff in Hn as [Hn|Hn]|];
      apply FloatAxioms.Leibniz.eqb_spec in Hn; unfold nextTo; tauto. }
  cbv zeta. repeat split; trivial; try (now apply Hnext).
  - intros Ht. match goal with H : (_ || PrimFloat.leb (fitWidth v) _)%bool = true |- _ =>
      apply orb_true_iff in H as [H|H]; [apply Z.ltb_lt in H; lia|exact H] end.
  - intros Ht. match goal with H : (_ || PrimFloat.leb (fitHeight v) _)%bool = true |- _ =>
      apply orb_true_iff in H as [H|H]; [apply Z.ltb_lt in H; lia|exact H] end.
  - intros Ht. match goal with H : (_ || PrimFloat.Leibniz.eqb _ _)%bool = true |- _ =>
      apply orb_true_iff in H as [H|H];
        [apply Z.ltb_lt in H; change (MAX_SIDE < 16 * v)%Z in H; lia
        |apply FloatAxioms.Leibniz.eqb_spec in H; exact H] end.
Qed.

Lemma fitHeight_decreasing (v v' : Z) :
  (1 <= v <= v')%Z -> (v' <= MAX_SIDE)%Z ->
  PrimFloat.leb (fitHeight v') (fitHeight v) = true.
Proof.
  intros Hv Hb. replace v' with (v + Z.of_nat (Z.to_nat (v' - v)))%Z by lia.
  apply (decreasing fitHeight MAX_SIDE); try lia.
  intros u Hu. apply (side_facts u Hu).
Qed.

Lemma fitWidth_decreasing (v v' : Z) :
  (1 <= v <= v')%Z -> (v' <= MAX_SIDE)%Z ->
  PrimFloat.leb (fitWidth v') (fitWidth v) = true.
Proof.
  intros Hv Hb. replace v' with (v + Z.of_nat (Z.to_nat (v' - v)))%Z by lia.
  apply (decreasing fitWidth MAX_SIDE); try lia.
  intros u Hu. apply (side_facts u Hu).
Qed.

(** For a frame wider than the target the factor is the one that fits
    the width. *)
Lemma scale_of_a_wide_frame (vw vh : Z) :
  (1 <= vw <= MAX_SIDE)%Z -> (1 <= vh <= MAX_SIDE)%Z ->
  wider CANVAS_WIDTH CANVAS_HEIGHT vw vh ->
  float_min (fitWidth vw) (fitHeight vh) = fitWidth vw.
Proof.
  unfold wider, CANVAS_WIDTH, CANVAS_HEIGHT, MAX_SIDE. intros Hw Hh Hwide.
  set (tallest := ((CANVAS_HEIGHT * vw - 1) / CANVAS_WIDTH)%Z).
  assert (Ht : (vh <= tallest <= MAX_SIDE)%Z).
  { unfold tallest, CANVAS_WIDTH, CANVAS_HEIGHT, MAX_SIDE. split.
    - apply Z.div_le_lower_bound; lia.
    - apply Z.lt_succ_r, Z.div_lt_upper_bound; lia. }
  destruct (side_facts vw Hw) as ((Hp & _) & _ & Hcross & _).
  destruct (side_facts vh Hh) as (_ & (Hq & _) & _).
  destruct (side_facts tallest ltac:(unfold MAX_SIDE in *; lia)) as (_ & (Hr & _) & _).
  apply float_min_l; trivial.
  apply (leb_trans _ (fitHeight tallest)); trivial.
  - apply Hcross. fold tallest. lia.
  - apply fitHeight_decreasing; lia.
Qed.

(** For a frame taller than the target it is the one that fits the
    height. *)
Lemma scale_of_a_tall_frame (vw vh : Z) :
  (1 <= vw <= MAX_SIDE)%Z -> (1 <= vh <= MAX_SIDE)%Z ->
  taller CANVAS_WIDTH CANVAS_HEIGHT vw vh ->
  float_min (fitWidth vw) (fitHeight vh) = fitHeight vh.
Proof.
  unfold taller, CANVAS_WIDTH, CANVAS_HEIGHT, MAX_SIDE. intros Hw Hh Htall.
  set (widest := Z.min MAX_SIDE ((CANVAS_WIDTH * vh - 1) / CANVAS_HEIGHT)%Z).
  assert (Ht : (vw <= widest <= MAX_SIDE)%Z).
  { unfold widest, CANVAS_WIDTH, CANVAS_HEIGHT, MAX_SIDE. split; [|lia].
    apply Z.min_glb; [lia|]. apply Z.div_le_lower_bound; lia. }
  destruct (side_facts vh Hh) as (_ & (Hp & _) & _ & Hcross & _).
  destruct (side_facts vw Hw) as ((Hq & _) & _).
  destruct (side_facts widest ltac:(unfold MAX_SIDE in *; lia)) as ((Hr & _) & _).
  apply float_min_r; trivial.
  apply (leb_trans _ (fitWidth widest)); trivial.
  - apply Hcross. fold widest. lia.
  - apply fitWidth_decreasing; lia.
Qed.

(** For a frame of the target's own aspect ratio the two factors are
    the same double. *)
Lemma scale_of_a_fitting_frame (vw vh : Z) :
  (1 <= vw <= MAX_SIDE)%Z -> (1 <= vh <= MAX_SIDE)%Z ->
  (vw * CANVAS_HEIGHT = CANVAS_WIDTH * vh)%Z ->
  fitHeight vh = fitWidth vw /\
  float_min (fitWidth vw) (fitHeight vh) = fitWidth vw.
Proof.
  unfold CANVAS_WIDTH, CANVAS_HEIGHT, MAX_SIDE. intros Hw Hh Hfit.
  assert (Ek : (vw = 16 * (vw / 16) /\ vh = 9 * (vw / 16))%Z).
  { assert (Hd : (16 | vw)%Z)
      by (apply (Z.gauss 16 9 vw); [exists vh; lia|reflexivity]).
    destruct Hd as [k Hk]. rewrite Hk, Z.div_mul by lia. lia. }
  destruct Ek as [Ew Eh].
  destruct (side_facts (vw / 16) ltac:(unfold MAX_SIDE; lia))
    as (_ & _ & _ & _ & Hsame & _).
  rewrite <- Ew, <- Eh in Hsame. specialize (Hsame ltac:(unfold MAX_SIDE; lia)).
  destruct (side_facts vw Hw) as ((Hp & _) & _).
  split; [now symmetry|].
  rewrite <- Hsame. apply float_min_l; trivial. now apply leb_refl.
Qed.

(** C4, as the code has it, in binary64 on the configured canvas.  For
    every frame whose sides are between 1 and 65536 pixels: when the frame
    is wider than the target, the factor is the one that fits the width,
    the draw width is the target's width or one of the two doubles next to
    it, the horizontal margin is at most 2^-43 in size, and the draw height
    is the frame's height times that factor; when the frame is taller than
    the target, the factor is the one that fits the height, the draw height
    is the target's height or a double next to it, the vertical margin is
    at most 2^-44 in size, and the draw width is the frame's width times
    that factor; when the frame has the target's own aspect ratio, both
    sides are fitted in this way.  In every case the rectangle is placed
    at half of what the target has left on each axis. *)
Theorem letterbox_fits_the_constraining_side (vw vh : Z) :
  (1 <= vw <= 65536)%Z -> (1 <= vh <= 65536)%Z ->
  let W := ofZ CANVAS_WIDTH in
  let Ht := ofZ CANVAS_HEIGHT in
  let r := frameRect float CANVAS_WIDTH CANVAS_HEIGHT vw vh in
  (wider CANVAS_WIDTH CANVAS_HEIGHT vw vh ->
     nextTo W (rw r) /\
     PrimFloat.leb (PrimFloat.abs (rx r)) 0x1p-43 = true /\
     rh r = nmul (ofZ vh) (ndiv W (ofZ vw))) /\
  (taller CANVAS_WIDTH CANVAS_HEIGHT vw vh ->
     nextTo Ht (rh r) /\
     PrimFloat.leb (PrimFloat.abs (ry r)) 0x1p-44 = true /\
     rw r = nmul (ofZ vw) (ndiv Ht (ofZ vh))) /\
  ((vw * CANVAS_HEIGHT = CANVAS_WIDTH * vh)%Z ->
     nextTo W (rw r) /\
     PrimFloat.leb (PrimFloat.abs (rx r)) 0x1p-43 = true /\
     nextTo Ht (rh r) /\
     PrimFloat.leb (PrimFloat.abs (ry r)) 0x1p-44 = true) /\
  rx r = ndiv (nsub W (rw r)) (ofZ 2) /\
  ry r = ndiv (nsub Ht (rh r)) (ofZ 2).
Proof.
  intros Hw Hh W Ht r.
  split; [|split; [|split; [|split; reflexivity]]].
  - intros Hwide. unfold r. rewrite frameRect_float.
    rewrite (scale_of_a_wide_frame vw vh Hw Hh Hwide). cbv zeta. cbn [rw rx rh].
    destruct (side_facts vw Hw) as (_ & _ & _ & _ & _ & (Hn & Hm) & _).
    repeat split; trivial.
  - intros Htall. unfold r. rewrite frameRect_float.
    rewrite (scale_of_a_tall_frame vw vh Hw Hh Htall). cbv zeta. cbn [rw ry rh].
    destruct (side_facts vh Hh) as (_ & _ & _ & _ & _ & _ & (Hn & Hm)).
    repeat split; trivial.
  - intros Hfit. unfold r. rewrite frameRect_float.
    destruct (scale_of_a_fitting_frame vw vh Hw Hh Hfit) as [Hsame ->].
    cbv zeta. cbn [rw rx rh ry].
    destruct (side_facts vw Hw) as (_ & _ & _ & _ & _ & (Hn & Hm) & _).
    destruct (side_facts vh Hh) as (_ & _ & _ & _ & _ & _ & (Hn' & Hm')).
    split; [exact Hn|]. split; [exact Hm|].
    rewrite <- Hsame. now split.
Qed.

Lemma letterbox_witness :
  let r := frameRect float CANVAS_WIDTH CANVAS_HEIGHT 1176 480 in
  nextTo (ofZ CANVAS_WIDTH) (rw r) /\
  PrimFloat.leb (PrimFloat.abs (rx r)) 0x1p-43 = true /\
  rh r = nmul (ofZ 480) (ndiv (ofZ CANVAS_WIDTH) (ofZ 1176)).
Proof.
  apply (proj1 (letterbox_fits_the_constraining_side 1176 480
                  ltac:(lia) ltac:(lia))).
  reflexivity.
Defined.

(** The claim C4 as the specification states it fails on both of its
    halves: the frame 2560x720, wider than the 1280x720 target, is drawn
    360 high and not 720; the frame 720x1280, taller than the target, is
    drawn 405 wide and not 1280. *)
Lemma wide_frame_is_not_drawn_at_target_height :
  wider CANVAS_WIDTH CANVAS_HEIGHT 2560 720 /\
  rh (frameRect float CANVAS_WIDTH CANVAS_HEIGHT 2560 720) = 360%float /\
  rh (frameRect float CANVAS_WIDTH CANVAS_HEIGHT 2560 720) <> ofZ CANVAS_HEIGHT /\
  taller CANVAS_WIDTH CANVAS_HEIGHT 720 1280 /\
  rw (frameRect float CANVAS_WIDTH CANVAS_HEIGHT 720 1280) = 405%float /\
  rw (frameRect float CANVAS_WIDTH CANVAS_HEIGHT 720 1280) <> ofZ CANVAS_WIDTH.
Proof.
  repeat split.
  - intros E. apply (f_equal (fun x => PrimFloat.ltb x 500)) in E.
    vm_compute in E. discriminate.
  - intros E. apply (f_equal (fun x => PrimFloat.ltb x 500)) in E.
    vm_compute in E. discriminate.
Qed.

(** Rounding shows in binary64: a frame 77 pixels wide and wider than the
    target is drawn a hair narrower than the target. *)
Example rounding_of_the_fitted_side :
  wider CANVAS_WIDTH CANVAS_HEIGHT 77 1 /\
  rw (frameRect float CANVAS_WIDTH CANVAS_HEIGHT 77 1) = 0x1.3ffffffffffffp+10%float /\
  PrimFloat.ltb (rw (frameRect float CANVAS_WIDTH CANVAS_HEIGHT 77 1)) 1280 = true.
Proof. repeat split. Qed.

(** It shows the other way too: the frame 1176x480 is drawn a hair wider
    than the target and starts left of it, the frame 1080x1352 a hair
    higher than the target and starts above it. *)
Example fitted_side_can_exceed_the_target :
  let wide := frameRect float CANVAS_WIDTH CANVAS_HEIGHT 1176 480 in
  let tall := frameRect float CANVAS_WIDTH CANVAS_HEIGHT 1080 1352 in
  rw wide = PrimFloat.next_up (ofZ CANVAS_WIDTH) /\
  rx wide = (- 0x1p-43)%float /\
  rh tall = PrimFloat.next_up (ofZ CANVAS_HEIGHT) /\
  ry tall = (- 0x1p-44)%float.
Proof. repeat split. Qed.

(** * Further properties of the pipeline *)

(** ** The loop, whatever the drivers do *)

Lemma processClips_loop_effects host : forall rest total i chunks,
  Forall (fun e => loopEffect e = true)
         (snd (processClips host total i rest chunks)).
Proof.
  assert (Hd : forall f w h events,
    Forall (fun e => loopEffect e = true) (snd (playVideoToCanvas f w h events))).
  { intros. eapply Forall_impl; [|apply driver_trace_effects].
    intros e He. unfold loopEffect. now rewrite He. }
  induction rest as [|v rest IH]; intros total i chunks; [constructor|].
  rewrite processClips_cons. cbv zeta.
  destruct (fst (playVideoToCanvas _ _ _ _)); cbn [snd];
    (constructor; [reflexivity|]); try apply Hd.
  apply Forall_app; split; [apply Hd|apply IH].
Qed.

Lemma count_loop (p : Effect -> bool) (t : Trace) :
  (forall e, loopEffect e = true -> p e = false) ->
  Forall (fun e => loopEffect e = true) t -> count p t = 0%nat.
Proof.
  intros Hp Ht. apply count_none. eapply Forall_impl; [|exact Ht].
  exact Hp.
Qed.

(** The loop calls [onProgress] and makes video elements for a prefix of
    the clips: all of them when it runs to its end. *)
Lemma processClips_prefix host : forall rest total i chunks,
  exists k, (k <= length rest)%nat /\
    milestones (snd (processClips host total i rest chunks))
      = expectedMilestones total i (firstn k rest) /\
    (forall result, fst (processClips host total i rest chunks) = Resolved result ->
                    k = length rest).
Proof.
  induction rest as [|v rest IH]; intros total i chunks.
  - exists 0%nat. repeat split; trivial.
  - rewrite processClips_cons. cbv zeta.
    destruct (fst (playVideoToCanvas _ _ _ _)) eqn:Hd; cbn [fst snd].
    + destruct (IH total (S i) (dataavailable chunks (dataDuring host i)))
        as (k & Hk & Hm & Hres).
      exists (S k). split; [cbn; lia|]. split.
      * cbn [firstn milestones expectedMilestones]. f_equal.
        now rewrite milestones_app, driver_milestones, Hm.
      * intros result Hr. cbn [length]. f_equal. now apply (Hres result).
    + exists 1%nat. split; [cbn; lia|]. split; [|discriminate].
      cbn [firstn milestones expectedMilestones]. f_equal.
      now rewrite driver_milestones.
    + exists 1%nat. split; [cbn; lia|]. split; [|discriminate].
      cbn [firstn milestones expectedMilestones]. f_equal.
      now rewrite driver_milestones.
Qed.

(** What [stitchVideos] does before the loop when it does not reach it. *)
Lemma stitchVideos_stopped_early host videos :
  videos = [] \/ context2d host = false ->
  fst (stitchVideos host videos)
    = Rejected (JsError (if (length videos =? 0)%nat then "No videos to stitch"
                         else "Could not create canvas context")) /\
  snd (stitchVideos host videos)
    = (if (length videos =? 0)%nat then []
       else [CreateCanvas CANVAS_WIDTH CANVAS_HEIGHT; GetContext2d]).
Proof.
  intros [->|Hctx]; [now split|].
  unfold stitchVideos. destruct (length videos =? 0)%nat; [now split|].
  rewrite Hctx. now split.
Qed.

Lemma seq_bounds : forall n a x, In x (seq a n) -> (a <= x < a + n)%nat.
Proof. intros n a x Hx. now apply in_seq. Qed.

(** X1.  In every run of [stitchVideos], whatever its outcome, each call
    of [onProgress] carries [totalClips] equal to the number of clips and a
    [currentClipIndex] between 1 and [totalClips]; the indices are 1, 2,
    ..., k for some k up to the number of clips, followed by one more call
    with the number of clips itself exactly when the run resolves. *)
Theorem progress_is_within_bounds_in_every_run (host : Host) (videos : list VideoFile) :
  let N := length videos in
  let run := stitchVideos host videos in
  let calls := progressCalls (snd run) in
  Forall (fun p => totalClips p = N /\
                   (1 <= currentClipIndex p <= totalClips p)%nat) calls /\
  exists k, (k <= N)%nat /\
    match fst run with
    | Resolved _ => k = N /\ map currentClipIndex calls = seq 1 N ++ [N]
    | _ => map currentClipIndex calls = seq 1 k
    end.
Proof.
  cbv zeta.
  destruct videos as [|v vs]; [split; [constructor|now exists 0%nat]|].
  destruct (context2d host) eqn:Hctx.
  2:{ destruct (stitchVideos_stopped_early host (v :: vs)) as [Ho Ht];
        [now right|].
      rewrite Ho, Ht. cbn. split; [constructor|].
      exists 0%nat. split; [lia|reflexivity]. }
  set (videos := v :: vs). set (N := length videos).
  rewrite stitchVideos_running by (trivial; discriminate). cbv zeta. fold N.
  destruct (processClips_prefix host videos N 0 []) as (k & Hk & Hm & Hres).
  assert (Hlen : length (firstn k videos) = k) by now apply firstn_length_le.
  assert (Hpre : Forall (fun p => totalClips p = N /\
                           (1 <= currentClipIndex p <= totalClips p)%nat)
                   (progressOf (expectedMilestones N 0 (firstn k videos)))).
  { pose proof (expected_totals (firstn k videos) N 0) as Ht.
    pose proof (expected_indices (firstn k videos) N 0) as Hi.
    rewrite Hlen in Hi. rewrite Forall_forall in *. intros p Hp.
    specialize (Ht p Hp). split; [exact Ht|].
    assert (Hin : In (currentClipIndex p) (seq (0 + 1) k)).
    { rewrite <- Hi. now apply in_map. }
    apply seq_bounds in Hin. fold N in Hk. lia. }
  destruct (fst (processClips host N 0 videos [])) as [chunks| |] eqn:Hloop;
    cbn [fst snd]; unfold progressCalls;
    rewrite !milestones_app, setupTrace_milestones, Hm; cbn [app].
  - rewrite (proj1 (stopRecording_run _ _ _ _)).
    cbn [milestones]. rewrite (proj2 (stopRecording_run _ _ _ _)).
    specialize (Hres chunks eq_refl). fold N in Hres. subst k.
    unfold progressOf. rewrite flat_map_app.
    fold (progressOf (expectedMilestones N 0 (firstn N videos))).
    split.
    + apply Forall_app. split; [exact Hpre|].
      constructor; [|constructor]. cbn. unfold N, videos. cbn. lia.
    + exists N. split; [lia|]. split; [reflexivity|].
      now rewrite map_app, expected_indices, Hlen.
  - split; [exact Hpre|].
    exists k. split; [exact Hk|]. now rewrite expected_indices, Hlen.
  - split; [exact Hpre|].
    exists k. split; [exact Hk|]. now rewrite expected_indices, Hlen.
Qed.

Lemma processClips_resolved_drivers host : forall rest total i chunks result,
  fst (processClips host total i rest chunks) = Resolved result ->
  forall j v, nth_error rest j = Some v ->
              driverOutcome host (i + j) v = Resolved tt.
Proof.
  induction rest as [|u rest IH]; intros total i chunks result Hres j v Hj.
  - destruct j; discriminate.
  - rewrite processClips_cons in Hres. cbv zeta in Hres.
    destruct (fst (playVideoToCanvas _ _ _ _)) as [[]| |] eqn:Hd;
      try discriminate.
    cbn [fst] in Hres. destruct j as [|j].
    + injection Hj as <-. now rewrite Nat.add_0_r.
    + rewrite <- Nat.add_succ_comm. now apply (IH _ _ _ _ Hres).
Qed.

(** X2.  On a host that supports one of the listed types,
    [stitchVideos] resolves exactly when the list is not empty, a 2D
    context was obtained and the driver of every clip resolves; the blob
    is then made of the chunks of positive size that arrived, in order,
    with the negotiated type. *)
Theorem supported_run_resolves_iff_every_driver_resolves
  (host : Host) (videos : list VideoFile) :
  supportsListed host ->
  ((exists blob, fst (stitchVideos host videos) = Resolved blob) <->
   (videos <> [] /\ context2d host = true /\
    forall i v, nth_error videos i = Some v ->
                driverOutcome host i v = Resolved tt)) /\
  (forall blob, fst (stitchVideos host videos) = Resolved blob ->
     blob = newBlob (filter nonEmpty (arrivals host (length videos)))
                    (negotiate (isTypeSupported host)) /\
     isTypeSupported host (blobType blob) = true).
Proof.
  intros Hsup. split; [split|].
  - intros [blob Hres].
    destruct videos as [|v vs]; [discriminate|].
    destruct (context2d host) eqn:Hctx.
    + split; [discriminate|]. split; [reflexivity|].
      rewrite stitchVideos_running in Hres by (trivial; discriminate).
      cbv zeta in Hres.
      destruct (fst (processClips _ _ _ _ _)) as [chunks| |] eqn:Hloop;
        try discriminate.
      intros i w Hi.
      now apply (processClips_resolved_drivers host _ _ _ _ _ Hloop i w).
    + destruct (stitchVideos_stopped_early host (v :: vs)) as [Ho _];
        [now right|].
      rewrite Ho in Hres. discriminate.
  - intros (Hne & Hctx & Hall).
    destruct (run_to_the_end host videos Hne Hctx Hall)
      as (before & closing & Hrun & _).
    rewrite Hrun. now eexists.
  - intros blob Hres. rewrite (stitchVideos_resolved host videos blob Hres).
    rewrite dataavailable_filter. split; [reflexivity|].
    now apply negotiate_supported.
Qed.

Lemma supported_run_resolves_witness :
  exists blob, fst (stitchVideos goodHost [clipA; clipB]) = Resolved blob.
Proof.
  apply (proj2 (proj1 (supported_run_resolves_iff_every_driver_resolves goodHost
                         [clipA; clipB] eq_refl))).
  split; [discriminate|]. split; [reflexivity|].
  intros [|[|[|i]]] v Hv; try discriminate; injection Hv as <-; reflexivity.
Defined.

Lemma setupTrace_counts host :
  count isNewMediaRecorder (setupTrace host) = 1%nat /\
  count isRecorderStart (setupTrace host) = 1%nat.
Proof. unfold setupTrace. now destruct (initialAudioState host). Qed.

(** X3.  On a host that supports one of the listed types, in every run
    the recorder is constructed (with a type the host supports) and
    started together, once if the run got past the context check and
    never otherwise; [stop()] is called once if the run resolves and never
    otherwise, and the audio context is closed once if the run resolves
    (unless it was already closed) and never otherwise. *)
Theorem supported_recorder_is_stopped_only_by_a_resolved_run
  (host : Host) (videos : list VideoFile) :
  supportsListed host ->
  let run := stitchVideos host videos in
  (forall type, In (NewMediaRecorder type) (snd run) ->
                isTypeSupported host type = true) /\
  count isNewMediaRecorder (snd run) = count isRecorderStart (snd run) /\
  count isRecorderStart (snd run)
    = (if (negb (length videos =? 0)%nat && context2d host)%bool then 1 else 0)%nat /\
  count isRecorderStop (snd run) = resolvedOnce (fst run) /\
  count isAudioClose (snd run)
    = match initialAudioState host with
      | Closed => 0%nat
      | _ => resolvedOnce (fst run)
      end.
Proof.
  intros Hsup. cbv zeta.
  destruct videos as [|v vs].
  { split; [intros type []|]. repeat split. now destruct (initialAudioState host). }
  destruct (context2d host) eqn:Hctx.
  2:{ destruct (stitchVideos_stopped_early host (v :: vs)) as [Ho Ht];
        [now right|].
      rewrite Ho, Ht. split; [intros type [H|[H|[]]]; discriminate|].
      repeat split. now destruct (initialAudioState host). }
  rewrite stitchVideos_running by (trivial; discriminate). cbv zeta.
  pose proof (processClips_loop_effects host (v :: vs) (length (v :: vs)) 0 [])
    as Hl.
  assert (Hz : forall p, (forall e, loopEffect e = true -> p e = false) ->
    count p (snd (processClips host (length (v :: vs)) 0 (v :: vs) [])) = 0%nat).
  { intros p Hp. now apply count_loop. }
  assert (H1 := Hz isNewMediaRecorder ltac:(now intros [])).
  assert (H2 := Hz isRecorderStart ltac:(now intros [])).
  assert (H3 := Hz isRecorderStop ltac:(now intros [])).
  assert (H4 := Hz isAudioClose ltac:(now intros [])).
  destruct (setupTrace_counts host) as [Hs1 Hs2].
  destruct (setupTrace_leaves_running host) as [Hs3 Hs4].
  change (negb (length (v :: vs) =? 0)%nat && true)%bool with true. cbv iota.
  split.
  { intros type Hin.
    assert (Hty : type = negotiate (isTypeSupported host));
      [|rewrite Hty; now apply negotiate_supported].
    assert (Hnone : forall t, Forall (fun e => loopEffect e = true) t ->
                              ~ In (NewMediaRecorder type) t).
    { intros t Ht Hin'. rewrite Forall_forall in Ht.
      specialize (Ht _ Hin'). discriminate. }
    assert (Hsetup : In (NewMediaRecorder type) (setupTrace host) ->
                     type = negotiate (isTypeSupported host)).
    { unfold setupTrace. destruct (initialAudioState host); cbn;
        intuition (try discriminate; congruence). }
    destruct (fst (processClips _ _ _ _ _)) as [chunks| |]; cbn [fst snd] in Hin;
      apply in_app_or in Hin; destruct Hin as [Hin|Hin];
      try (now apply Hsetup); try (now apply Hnone in Hl).
    apply in_app_or in Hin. destruct Hin as [Hin|Hin]; [now apply Hnone in Hl|].
    destruct Hin as [Hin|Hin]; [discriminate|].
    unfold stopRecording in Hin. destruct (audioAfterSetup host); cbn in Hin;
      intuition discriminate. }
  destruct (fst (processClips _ _ _ _ _)) as [chunks| |]; cbn [fst snd];
    rewrite ?count_app, ?Hs1, ?Hs2, ?Hs3, ?Hs4, ?H1, ?H2, ?H3, ?H4.
  - rewrite (proj1 (stopRecording_run _ _ _ _)).
    unfold stopRecording, audioAfterSetup.
    destruct (initialAudioState host); repeat split.
  - repeat split. now destruct (initialAudioState host).
  - repeat split. now destruct (initialAudioState host).
Qed.

Lemma supported_recorder_witness :
  let run := stitchVideos secondFailsHost [clipA; clipB] in
  (forall type, In (NewMediaRecorder type) (snd run) ->
                isTypeSupported secondFailsHost type = true) /\
  count isNewMediaRecorder (snd run) = count isRecorderStart (snd run) /\
  count isRecorderStart (snd run) = 1%nat /\
  count isRecorderStop (snd run) = 0%nat /\
  count isAudioClose (snd run) = 0%nat.
Proof.
  apply (supported_recorder_is_stopped_only_by_a_resolved_run secondFailsHost
           [clipA; clipB]).
  reflexivity.
Defined.

Lemma processClips_pending host : forall rest total i chunks k v,
  nth_error rest k = Some v ->
  (forall j w, (j < k)%nat -> nth_error rest j = Some w ->
               driverOutcome host (i + j) w = Resolved tt) ->
  driverOutcome host (i + k) v = Pending ->
  fst (processClips host total i rest chunks) = Pending /\
  milestones (snd (processClips host total i rest chunks))
    = expectedMilestones total i (firstn (S k) rest).
Proof.
  induction rest as [|u rest IH]; intros total i chunks k v Hk Hbefore Hpend.
  - destruct k; discriminate.
  - rewrite processClips_cons. cbv zeta. destruct k as [|k].
    + injection Hk as ->. rewrite Nat.add_0_r in Hpend.
      unfold driverOutcome in Hpend. rewrite Hpend. split; [reflexivity|].
      cbn [snd milestones firstn expectedMilestones]. f_equal.
      apply driver_milestones.
    + pose proof (Hbefore 0%nat u (Nat.lt_0_succ k) eq_refl) as H0.
      rewrite Nat.add_0_r in H0. unfold driverOutcome in H0. rewrite H0.
      destruct (IH total (S i) (dataavailable chunks (dataDuring host i)) k v)
        as [Ho Hm]; trivial.
      { intros j w Hj Hw. rewrite Nat.add_succ_l, <- Nat.add_succ_r.
        apply Hbefore; [lia|exact Hw]. }
      { now rewrite Nat.add_succ_l, <- Nat.add_succ_r. }
      cbn [fst snd]. split; [exact Ho|].
      change (firstn (S (S k)) (u :: rest)) with (u :: firstn (S k) rest).
      cbn [milestones expectedMilestones]. f_equal.
      now rewrite milestones_app, driver_milestones, Hm.
Qed.

(** X4.  When the video element of clip i delivers neither [ended] nor
    [error] (nor a rejection of [play()]), so that its driver never settles,
    and the drivers before it resolved, the promise of [stitchVideos] never
    settles either: clips 0..i were started and no later one, [stop()] is
    never called on the recorder and the audio context is never closed. *)
Theorem unsettled_driver_leaves_the_run_pending
  (host : Host) (videos : list VideoFile) (i : nat) (v : VideoFile) :
  context2d host = true ->
  nth_error videos i = Some v ->
  (forall j w, (j < i)%nat -> nth_error videos j = Some w ->
               driverOutcome host j w = Resolved tt) ->
  driverOutcome host i v = Pending ->
  let run := stitchVideos host videos in
  fst run = Pending /\
  startedClips (snd run) = map file (firstn (S i) videos) /\
  count isRecorderStop (snd run) = 0%nat /\
  count isAudioClose (snd run) = 0%nat.
Proof.
  intros Hctx Hi Hbefore Hpend run.
  assert (Hne : videos <> []) by (intros ->; destruct i; discriminate).
  destruct (processClips_pending host videos (length videos) 0 [] i v)
    as [Ho Hm]; trivial.
  pose proof (processClips_effects host videos (length videos) 0 []) as Hl.
  destruct (setupTrace_leaves_running host) as [Hs1 Hs2].
  unfold run. rewrite stitchVideos_running by assumption. cbv zeta.
  rewrite Ho. cbn [fst snd]. split; [reflexivity|]. split.
  - unfold startedClips.
    rewrite milestones_app, setupTrace_milestones, Hm. cbn [app].
    apply expected_started.
  - rewrite !count_app, Hs1, Hs2.
    split; apply count_none; eapply Forall_impl; try exact Hl;
      now intros a [H1 H2].
Qed.

Lemma unsettled_driver_witness :
  let run := stitchVideos secondStallsHost [clipA; clipB] in
  fst run = Pending /\
  startedClips (snd run) = [file clipA; file clipB] /\
  count isRecorderStop (snd run) = 0%nat /\
  count isAudioClose (snd run) = 0%nat.
Proof.
  apply (unsettled_driver_leaves_the_run_pending secondStallsHost [clipA; clipB]
           1 clipB).
  - reflexivity.
  - reflexivity.
  - intros [|j] w Hj Hw; [injection Hw as <-; reflexivity|lia].
  - reflexivity.
Defined.

(** ** The driver's resources, over every script *)

Section DriverResources.
Variable (f : File) (width height : Z).

Lemma drawFrame_counts v :
  count isCreateObjectURL (fst (drawFrame f width height v)) = 0%nat /\
  count isDisconnect (fst (drawFrame f width height v)) = 0%nat /\
  count isCreateMediaElementSource (fst (drawFrame f width height v)) = 0%nat.
Proof. unfold drawFrame. now destruct (paused v || ended v)%bool. Qed.

Lemma deliver_never_creates_url st ev :
  count isCreateObjectURL (effects (deliver f width height st ev)) = 0%nat.
Proof.
  destruct ev as [a|v|e|v| |e]; cbn [deliver].
  - now destruct a.
  - destruct (playPending st); [apply drawFrame_counts|reflexivity].
  - now destruct (playPending st).
  - destruct (frameRequested st); [apply drawFrame_counts|reflexivity].
  - cbn [onended effects]. unfold disconnectSource. now destruct (source st).
  - cbn [onerror effects]. unfold disconnectSource. now destruct (source st).
Qed.

Lemma dispatch_never_creates_url : forall events st,
  count isCreateObjectURL (snd (dispatch f width height st events)) = 0%nat.
Proof.
  induction events as [|ev rest IH]; intros st; cbn [dispatch]; [reflexivity|].
  pose proof (deliver_never_creates_url st ev) as Hd.
  destruct (settled (deliver f width height st ev)) as [[|e]|]; cbn [snd];
    trivial.
  now rewrite count_app, Hd, IH.
Qed.

Lemma dispatch_revokes_on_resolve : forall events st,
  count isRevokeObjectURL (snd (dispatch f width height st events))
    = resolvedOnce (fst (dispatch f width height st events)).
Proof.
  induction events as [|ev rest IH]; intros st; cbn [dispatch]; [reflexivity|].
  pose proof (deliver_revokes_only_on_resolve f width height st ev) as Hd.
  destruct (settled (deliver f width height st ev)) as [[|e]|] eqn:Hs;
    cbn [fst snd resolvedOnce].
  - destruct ev as [a|v|e|v| |e]; cbn [deliver] in *;
      try discriminate;
      try (destruct (playPending st); discriminate);
      try (destruct (frameRequested st); discriminate).
    cbn [onended effects]. rewrite count_app.
    unfold disconnectSource. now destruct (source st).
  - apply Hd. discriminate.
  - rewrite count_app, Hd by discriminate. apply IH.
Qed.

(** What was done when the promise settled is the beginning of what the
    handlers do over the life of the element. *)
Lemma dispatch_is_a_prefix : forall events st,
  exists later,
    handlers f width height st events
    = snd (dispatch f width height st events) ++ later.
Proof.
  induction events as [|ev rest IH]; intros st; cbn [dispatch handlers].
  - now exists [].
  - destruct (settled (deliver f width height st ev)) as [[|e]|]; cbn [snd].
    + now eexists.
    + now eexists.
    + destruct (IH (after (deliver f width height st ev))) as [later ->].
      exists later. now rewrite app_assoc.
Qed.

Lemma deliver_revokes_on_ended st ev :
  count isRevokeObjectURL (effects (deliver f width height st ev))
  = (if isEnded ev then 1 else 0)%nat.
Proof.
  destruct ev as [a|v|e|v| |e]; cbn [deliver isEnded].
  - now destruct a.
  - destruct (playPending st); [apply drawFrame_no_revoke|reflexivity].
  - now destruct (playPending st).
  - destruct (frameRequested st); [apply drawFrame_no_revoke|reflexivity].
  - cbn [onended effects]. unfold disconnectSource. now destruct (source st).
  - cbn [onerror effects]. unfold disconnectSource. now destruct (source st).
Qed.

Lemma handlers_revoke_per_ended : forall events st,
  count isRevokeObjectURL (handlers f width height st events)
  = length (filter isEnded events).
Proof.
  induction events as [|ev rest IH]; intros st; cbn [handlers filter];
    [reflexivity|].
  rewrite count_app, deliver_revokes_on_ended, IH.
  now destruct (isEnded ev).
Qed.

Lemma handlers_never_create_url : forall events st,
  count isCreateObjectURL (handlers f width height st events) = 0%nat.
Proof.
  induction events as [|ev rest IH]; intros st; cbn [handlers]; [reflexivity|].
  now rewrite count_app, deliver_never_creates_url, IH.
Qed.

(** X5.  A call of [playVideoToCanvas] creates exactly one object URL.
    When its promise settles the URL has been revoked if the promise
    resolved, and not if it was rejected; while the promise is pending it
    is not revoked either.  The handlers stay installed afterwards, and
    over the whole life of the video element the URL is revoked once for
    every [ended] event the element fires: never if it fires none, and
    also after a rejection if an [ended] follows the [error]. *)
Theorem object_url_is_revoked_by_ended_only (events : list VideoEvent) :
  let run := playVideoToCanvas f width height events in
  let life := lifetime f width height events in
  count isCreateObjectURL (snd run) = 1%nat /\
  count isRevokeObjectURL (snd run) = resolvedOnce (fst run) /\
  (exists later, life = snd run ++ later) /\
  count isCreateObjectURL life = 1%nat /\
  count isRevokeObjectURL life = length (filter isEnded events).
Proof.
  cbv zeta. unfold playVideoToCanvas, lifetime. rewrite !bind_emit.
  cbn [fst snd].
  split; [|split; [|split; [|split]]].
  - change (S (count isCreateObjectURL
                 (snd (dispatch f width height initialDriver events))) = 1%nat).
    now rewrite dispatch_never_creates_url.
  - change (count isRevokeObjectURL
              (snd (dispatch f width height initialDriver events))
            = resolvedOnce (fst (dispatch f width height initialDriver events))).
    apply dispatch_revokes_on_resolve.
  - destruct (dispatch_is_a_prefix events initialDriver) as [later ->].
    now exists later.
  - change (S (count isCreateObjectURL
                 (handlers f width height initialDriver events)) = 1%nat).
    now rewrite handlers_never_create_url.
  - change (count isRevokeObjectURL (handlers f width height initialDriver events)
            = length (filter isEnded events)).
    apply handlers_revoke_per_ended.
Qed.

Lemma deliver_disconnects st ev :
  let r := deliver f width height st ev in
  (count isDisconnect (effects r) <= 1)%nat /\
  (settled r = None -> count isDisconnect (effects r) = 0%nat) /\
  (source st = None ->
   count isDisconnect (effects r) = 0%nat /\
   (source (after r) <> None ->
    (1 <= count isCreateMediaElementSource (effects r))%nat)).
Proof.
  cbv zeta. destruct ev as [a|v|e|v| |e]; cbn [deliver].
  - destruct a; cbn; repeat split; try lia; try discriminate; try congruence.
  - destruct (playPending st);
      cbn [onplayFulfilled skip effects settled after source];
      [destruct (drawFrame_counts v) as (_ & -> & _)|cbn];
      repeat split; try lia; try congruence.
  - destruct (playPending st); cbn; repeat split; try lia; try discriminate; congruence.
  - destruct (frameRequested st);
      cbn [onanimationFrame skip effects settled after source];
      [destruct (drawFrame_counts v) as (_ & -> & _)|cbn];
      repeat split; try lia; try congruence.
  - cbn [onended effects settled after]. unfold disconnectSource.
    destruct (source st); cbn; repeat split; try lia; try discriminate; congruence.
  - cbn [onerror effects settled after]. unfold disconnectSource.
    destruct (source st); cbn; repeat split; try lia; try discriminate; congruence.
Qed.

Lemma dispatch_disconnects : forall events st,
  let t := snd (dispatch f width height st events) in
  (count isDisconnect t <= 1)%nat /\
  (fst (dispatch f width height st events) = Pending ->
   count isDisconnect t = 0%nat) /\
  (source st = None ->
   (count isDisconnect t <= count isCreateMediaElementSource t)%nat).
Proof.
  induction events as [|ev rest IH]; intros st; cbn [dispatch];
    [cbn; repeat split; lia|].
  destruct (deliver_disconnects st ev) as (H1 & H2 & H3).
  destruct (settled (deliver f width height st ev)) as [[|e]|] eqn:Hs;
    cbn [fst snd].
  - repeat split; [exact H1|discriminate|].
    intros Hn. destruct (H3 Hn) as [-> _]. lia.
  - repeat split; [exact H1|discriminate|].
    intros Hn. destruct (H3 Hn) as [-> _]. lia.
  - destruct (IH (after (deliver f width height st ev))) as (I1 & I2 & I3).
    rewrite !count_app, (H2 eq_refl). repeat split; [exact I1|exact I2|].
    intros Hn. destruct (H3 Hn) as [_ H4].
    destruct (source (after (deliver f width height st ev))) eqn:Hsrc.
    + assert (1 <= count isCreateMediaElementSource
                      (effects (deliver f width height st ev)))%nat
        by (apply H4; discriminate).
      lia.
    + specialize (I3 eq_refl). lia.
Qed.

Lemma deliver_disconnects_on_closing st ev :
  (count isDisconnect (effects (deliver f width height st ev))
   <= if isClosing ev then 1 else 0)%nat.
Proof.
  destruct (deliver_disconnects st ev) as (H1 & H2 & _).
  destruct ev as [a|v|e|v| |e]; cbn [isClosing]; try exact H1.
  - now rewrite H2.
  - rewrite H2; trivial. cbn [deliver]. now destruct (playPending st).
  - cbn [deliver]. now destruct (playPending st).
  - rewrite H2; trivial. cbn [deliver]. now destruct (frameRequested st).
Qed.

Lemma handlers_disconnect : forall events st,
  (count isDisconnect (handlers f width height st events)
   <= length (filter isClosing events))%nat /\
  (source st = None ->
   count isCreateMediaElementSource (handlers f width height st events) = 0%nat ->
   count isDisconnect (handlers f width height st events) = 0%nat).
Proof.
  induction events as [|ev rest IH]; intros st; cbn [handlers filter];
    [split; trivial|].
  destruct (IH (after (deliver f width height st ev))) as [I1 I2].
  pose proof (deliver_disconnects_on_closing st ev) as Hc.
  destruct (deliver_disconnects st ev) as (_ & _ & H3).
  rewrite !count_app. split.
  - destruct (isClosing ev); cbn [length]; lia.
  - intros Hn Hz. destruct (H3 Hn) as [Hd Hs]. rewrite Hd. cbn [Nat.add].
    apply I2; [|lia].
    destruct (source (after (deliver f width height st ev))) eqn:Hsrc; trivial.
    assert (1 <= count isCreateMediaElementSource
                   (effects (deliver f width height st ev)))%nat
      by (apply Hs; discriminate).
    lia.
Qed.

(** X6.  Up to the moment its promise settles, a call of
    [playVideoToCanvas] calls [disconnect()] at most once, not at all
    while the promise is pending, and never without having created a
    media-element source before.  The handlers stay installed afterwards:
    over the whole life of the video element [disconnect()] is called at
    most once for every [ended] or [error] event, and never when no source
    was created. *)
Theorem audio_source_is_disconnected_by_closing_events (events : list VideoEvent) :
  let run := playVideoToCanvas f width height events in
  let life := lifetime f width height events in
  (count isDisconnect (snd run) <= 1)%nat /\
  (fst run = Pending -> count isDisconnect (snd run) = 0%nat) /\
  (count isDisconnect (snd run) <= count isCreateMediaElementSource (snd run))%nat /\
  (count isDisconnect life <= length (filter isClosing events))%nat /\
  (count isCreateMediaElementSource life = 0%nat -> count isDisconnect life = 0%nat).
Proof.
  cbv zeta. unfold playVideoToCanvas, lifetime. rewrite !bind_emit.
  cbn [fst snd].
  destruct (dispatch_disconnects events initialDriver) as (H1 & H2 & H3).
  specialize (H3 eq_refl).
  destruct (handlers_disconnect events initialDriver) as [H4 H5].
  specialize (H5 eq_refl).
  change (count isDisconnect (CreateVideo f :: CreateObjectURL f ::
            snd (dispatch f width height initialDriver events)))
    with (count isDisconnect (snd (dispatch f width height initialDriver events))).
  change (count isCreateMediaElementSource (CreateVideo f :: CreateObjectURL f ::
            snd (dispatch f width height initialDriver events)))
    with (count isCreateMediaElementSource
            (snd (dispatch f width height initialDriver events))).
  change (count isDisconnect (CreateVideo f :: CreateObjectURL f ::
            handlers f width height initialDriver events))
    with (count isDisconnect (handlers f width height initialDriver events)).
  change (count isCreateMediaElementSource (CreateVideo f :: CreateObjectURL f ::
            handlers f width height initialDriver events))
    with (count isCreateMediaElementSource
            (handlers f width height initialDriver events)).
  repeat split; assumption.
Qed.

End DriverResources.

Lemma audio_source_disconnect_witness :
  count isDisconnect
    (snd (playVideoToCanvas (file clipB) CANVAS_WIDTH CANVAS_HEIGHT neverEnds))
  = 0%nat /\
  count isDisconnect
    (lifetime (file clipB) CANVAS_WIDTH CANVAS_HEIGHT silentToEnd) = 0%nat.
Proof.
  split.
  - apply (proj1 (proj2 (audio_source_is_disconnected_by_closing_events
                           (file clipB) CANVAS_WIDTH CANVAS_HEIGHT neverEnds))).
    reflexivity.
  - apply (proj2 (proj2 (proj2 (proj2
             (audio_source_is_disconnected_by_closing_events
                (file clipB) CANVAS_WIDTH CANVAS_HEIGHT silentToEnd))))).
    reflexivity.
Defined.

(** The handlers have no guard: an [ended] that follows the [error]
    disconnects the source a second time and revokes the URL of a call
    whose promise was rejected. *)
Example ended_after_error_runs_its_handler :
  let events := decodeFails ++ [Ended] in
  let f := file clipB in
  (exists e, fst (playVideoToCanvas f CANVAS_WIDTH CANVAS_HEIGHT events) = Rejected e) /\
  count isRevokeObjectURL
    (snd (playVideoToCanvas f CANVAS_WIDTH CANVAS_HEIGHT events)) = 0%nat /\
  count isRevokeObjectURL (lifetime f CANVAS_WIDTH CANVAS_HEIGHT events) = 1%nat /\
  count isDisconnect (lifetime f CANVAS_WIDTH CANVAS_HEIGHT events) = 2%nat.
Proof. cbv zeta. split; [now eexists|]. repeat split. Qed.

(** ** The capture loop *)

Section CaptureLoop.
Variable (f : File) (width height : Z).

(** With no callback outstanding nothing is drawn any more. *)
Lemma dispatch_idle : forall events st,
  frameRequested st = false -> playPending st = false ->
  Forall afterLoading events ->
  count isDrawImage (snd (dispatch f width height st events)) = 0%nat.
Proof.
  induction events as [|ev rest IH]; intros st Hr Hp Hev; [reflexivity|].
  inversion Hev as [|? ? Hhd Htl]; subst.
  cbn [dispatch].
  destruct ev as [a|v|e|v| |e]; cbn [deliver]; rewrite ?Hr, ?Hp;
    cbn [skip onended onerror settled effects after fst snd].
  - contradiction.
  - now apply IH.
  - now apply IH.
  - now apply IH.
  - unfold disconnectSource. now destruct (source st).
  - unfold disconnectSource. now destruct (source st).
Qed.

(** Each tick on which the video is playing draws once and asks for the
    next. *)
Lemma dispatch_playing_frames : forall frames st tail,
  frameRequested st = true -> Forall isPlaying frames ->
  count isDrawImage
    (snd (dispatch f width height st (map AnimationFrame frames ++ tail)))
  = (length frames
     + count isDrawImage (snd (dispatch f width height st tail)))%nat.
Proof.
  induction frames as [|v frames IH]; intros st tail Hr Hall; [reflexivity|].
  inversion Hall as [|? ? Hv Htl]; subst. unfold isPlaying in Hv.
  cbn [map app dispatch deliver]. rewrite Hr.
  cbn [onanimationFrame settled effects after]. unfold drawFrame. rewrite Hv.
  cbn [fst snd]. rewrite (same_driver_state st Hr).
  rewrite count_app, IH by assumption. reflexivity.
Qed.

Lemma dispatch_play_fulfilled st first tail :
  playPending st = true -> isPlaying first ->
  count isDrawImage
    (snd (dispatch f width height st (PlayFulfilled first :: tail)))
  = S (count isDrawImage
         (snd (dispatch f width height
                 {| source := source st; playPending := false;
                    frameRequested := true |} tail))).
Proof.
  intros Hp Hfirst. unfold isPlaying in Hfirst.
  cbn [dispatch deliver]. rewrite Hp.
  cbn [onplayFulfilled settled effects after]. unfold drawFrame.
  rewrite Hfirst. cbn [fst snd]. rewrite Bool.orb_true_r.
  now rewrite count_app.
Qed.

Lemma dispatch_loadedmetadata st a tail :
  count isDrawImage
    (snd (dispatch f width height st (Loadedmetadata a :: tail)))
  = count isDrawImage
      (snd (dispatch f width height (after (onloadedmetadata f st a)) tail)).
Proof.
  cbn [dispatch deliver]. cbn [onloadedmetadata settled effects].
  cbn [snd]. rewrite count_app. now destruct a.
Qed.

(** X7.  The capture loop draws one frame when [play()] is fulfilled
    and one per animation tick for as long as the video is playing, and it
    ends at the first tick that finds the video paused or ended: whatever
    the element reports afterwards, no further frame of the clip is drawn. *)
Theorem capture_loop_ends_at_the_first_paused_tick
  (a : AttachOutcome) (first : VideoState) (frames : list VideoState)
  (stopped : VideoState) (rest : list VideoEvent) :
  Forall isPlaying (first :: frames) ->
  (paused stopped || ended stopped)%bool = true ->
  Forall afterLoading rest ->
  count isDrawImage
    (snd (playVideoToCanvas f width height
            (Loadedmetadata a :: PlayFulfilled first
               :: map AnimationFrame frames ++ AnimationFrame stopped :: rest)))
  = S (length frames).
Proof.
  intros Hall Hstop Hrest.
  inversion Hall as [|? ? Hfirst Hframes]; subst.
  unfold playVideoToCanvas. rewrite !bind_emit. cbn [snd].
  change (count isDrawImage (CreateVideo f :: CreateObjectURL f :: ?t))
    with (count isDrawImage t).
  rewrite dispatch_loadedmetadata.
  rewrite dispatch_play_fulfilled by (trivial; reflexivity).
  rewrite dispatch_playing_frames by (trivial; reflexivity).
  cbn [dispatch deliver frameRequested onanimationFrame settled effects after].
  unfold drawFrame. rewrite Hstop. cbn [fst snd app].
  rewrite dispatch_idle by (trivial; reflexivity).
  f_equal. lia.
Qed.

End CaptureLoop.

Lemma capture_loop_witness :
  count isDrawImage
    (snd (playVideoToCanvas (file clipA) CANVAS_WIDTH CANVAS_HEIGHT
            (Loadedmetadata AttachOk :: PlayFulfilled (playing 1920 1080)
               :: map AnimationFrame [playing 1920 1080; playing 1920 1080]
               ++ AnimationFrame (pausedAt 1920 1080)
               :: [AnimationFrame (playing 1920 1080); Ended])))
  = 3%nat.
Proof.
  apply (capture_loop_ends_at_the_first_paused_tick
           (file clipA) CANVAS_WIDTH CANVAS_HEIGHT AttachOk (playing 1920 1080)
           [playing 1920 1080; playing 1920 1080] (pausedAt 1920 1080)
           [AnimationFrame (playing 1920 1080); Ended]).
  - repeat constructor.
  - reflexivity.
  - repeat constructor.
Defined.

(** ** The negotiated type and the output *)

(** X8.  Whatever the host supports, the negotiated type is one of the
    six entries of [mimeTypes].  It is a type the host reports as supported
    whenever the host supports any entry; when the host supports none, the
    fallback 'video/webm' is itself an entry the host has just reported as
    unsupported. *)
Theorem negotiated_type_is_a_candidate (supported : string -> bool) :
  In (negotiate supported) mimeTypes /\
  ((exists type, In type mimeTypes /\ supported type = true) ->
   supported (negotiate supported) = true) /\
  ((forall type, In type mimeTypes -> supported type = false) ->
   supported (negotiate supported) = false).
Proof.
  assert (Hpick : forall type, In type mimeTypes -> supported type = true ->
    In type mimeTypes /\
    ((exists u, In u mimeTypes /\ supported u = true) -> supported type = true) /\
    ((forall u, In u mimeTypes -> supported u = false) -> supported type = false)).
  { intros type Hin Hs. split; [exact Hin|]. split; [now intros _|].
    intros Hno. now apply Hno. }
  rewrite negotiate_cases.
  destruct (supported "video/mp4;codecs=avc1,mp4a.40.2") eqn:E1;
    [apply Hpick; [cbn; auto 10|exact E1]|].
  destruct (supported "video/mp4;codecs=avc1") eqn:E2;
    [apply Hpick; [cbn; auto 10|exact E2]|].
  destruct (supported "video/mp4") eqn:E3;
    [apply Hpick; [cbn; auto 10|exact E3]|].
  destruct (supported "video/webm;codecs=h264") eqn:E4;
    [apply Hpick; [cbn; auto 10|exact E4]|].
  destruct (supported "video/webm;codecs=vp9,opus") eqn:E5;
    [apply Hpick; [cbn; auto 10|exact E5]|].
  split; [cbn; auto 10|]. split.
  - intros (type & Hin & Hs). cbn in Hin.
    destruct Hin as [<-|[<-|[<-|[<-|[<-|[<-|[]]]]]]]; congruence.
  - intros Hno. apply Hno. cbn; auto 10.
Qed.

Lemma negotiated_type_witness :
  webmOnly (negotiate webmOnly) = true /\
  (fun _ : string => false) (negotiate (fun _ => false)) = false.
Proof.
  split.
  - apply (proj1 (proj2 (negotiated_type_is_a_candidate webmOnly))).
    exists "video/webm". split; [cbn; tauto|reflexivity].
  - apply (proj2 (proj2 (negotiated_type_is_a_candidate (fun _ => false)))).
    reflexivity.
Defined.

Lemma list_sum_cons (n : nat) (l : list nat) :
  list_sum (n :: l) = (n + list_sum l)%nat.
Proof. reflexivity. Qed.

Lemma size_newBlob parts type :
  size (newBlob parts type) = list_sum (map size parts).
Proof.
  unfold size, newBlob. cbn [blobData].
  induction parts as [|b parts IH]; [reflexivity|].
  cbn [map concat]. now rewrite list_sum_cons, length_app, IH.
Qed.

Lemma size_nonEmpty parts :
  list_sum (map size (filter nonEmpty parts)) = list_sum (map size parts).
Proof.
  induction parts as [|b parts IH]; [reflexivity|].
  cbn [filter map]. unfold nonEmpty at 1.
  destruct (0 <? size b)%nat eqn:Hb; cbn [map]; rewrite ?list_sum_cons, IH;
    [reflexivity|].
  apply Nat.ltb_ge in Hb. lia.
Qed.

(** X9.  The blob of a run that resolves has as many bytes as all the
    chunks the recorder delivered during the clips and at [stop()]
    together: leaving the chunks of size zero out of the buffer loses
    nothing. *)
Theorem output_size_is_the_total_of_the_chunks
  (host : Host) (videos : list VideoFile) (blob : Blob) :
  fst (stitchVideos host videos) = Resolved blob ->
  size blob = list_sum (map size (arrivals host (length videos))).
Proof.
  intros Hres. rewrite (stitchVideos_resolved host videos blob Hres).
  rewrite size_newBlob, dataavailable_filter. cbn [app].
  apply size_nonEmpty.
Qed.

Lemma output_size_witness :
  size {| blobData := [Byte.x1a; Byte.x45; Byte.x1a; Byte.x45; Byte.xdf];
          blobType := "video/webm;codecs=vp9,opus" |}
  = list_sum (map size (arrivals goodHost (length [clipA; clipB]))).
Proof.
  apply (output_size_is_the_total_of_the_chunks goodHost [clipA; clipB]).
  reflexivity.
Defined.

(** * Properties of the page *)

(** ** The upload *)

Section UploadFacts.
Variable webkitRelativePath : File -> string.
Variable randomUUID : nat -> string.
Variable createObjectURL : nat -> string.
Variable localeCompare : string -> string -> Z.

Lemma collect_files : forall files videoList,
  map file (collectVideos randomUUID createObjectURL files videoList)
    = map file videoList ++ filter isVideo files.
Proof.
  induction files as [|f files IH]; intros videoList; cbn [collectVideos filter].
  - now rewrite app_nil_r.
  - destruct (isVideo f); [|apply IH].
    rewrite IH, map_app, <- app_assoc. reflexivity.
Qed.

Lemma collect_urls : forall files videoList,
  map previewUrl (collectVideos randomUUID createObjectURL files videoList)
    = map previewUrl videoList
      ++ map createObjectURL
           (seq (length videoList) (length (filter isVideo files))).
Proof.
  induction files as [|f files IH]; intros videoList; cbn [collectVideos filter].
  - now rewrite app_nil_r.
  - destruct (isVideo f); [|apply IH].
    rewrite IH, map_app, <- app_assoc, length_app. cbn [length map app seq].
    now rewrite Nat.add_1_r.
Qed.

Lemma collect_named : forall files videoList,
  Forall (fun v => name v = fileName (file v) /\ duration v = 0%Z) videoList ->
  Forall (fun v => name v = fileName (file v) /\ duration v = 0%Z)
         (collectVideos randomUUID createObjectURL files videoList).
Proof.
  induction files as [|f files IH]; intros videoList Hall; cbn [collectVideos];
    [exact Hall|].
  destruct (isVideo f); [|now apply IH].
  apply IH. apply Forall_app. split; [exact Hall|]. now repeat constructor.
Qed.

Lemma insertByName_perm v : forall l,
  Permutation (insertByName localeCompare v l) (v :: l).
Proof.
  induction l as [|u l IH]; cbn [insertByName]; [reflexivity|].
  destruct (localeCompare (name v) (name u) <? 0)%Z; [reflexivity|].
  rewrite IH. apply perm_swap.
Qed.

Lemma sortByName_perm : forall l, Permutation (sortByName localeCompare l) l.
Proof.
  unfold sortByName. intros l.
  enough (H : forall acc, Permutation
            (fold_left (fun s v => insertByName localeCompare v s) l acc)
            (acc ++ l)) by apply (H []).
  induction l as [|v l IH]; intros acc; cbn [fold_left].
  - now rewrite app_nil_r.
  - rewrite IH, insertByName_perm. cbn [app]. apply Permutation_middle.
Qed.

Lemma collect_length files :
  length (collectVideos randomUUID createObjectURL files [])
    = length (filter isVideo files).
Proof.
  rewrite <- (length_map file), collect_files. reflexivity.
Qed.

Lemma filter_isVideo_nonempty files :
  existsb isVideo files = true -> (0 < length (filter isVideo files))%nat.
Proof.
  induction files as [|f files IH]; cbn [existsb filter]; [discriminate|].
  destruct (isVideo f); cbn [orb length]; [lia|exact IH].
Qed.

Lemma filter_isVideo_empty files :
  existsb isVideo files = false -> filter isVideo files = [].
Proof.
  induction files as [|f files IH]; cbn [existsb filter]; [reflexivity|].
  destruct (isVideo f); cbn [orb]; [discriminate|exact IH].
Qed.

Section Consistent.
(** Of two names at most one sorts before the other. *)
Hypothesis localeCompare_asym :
  forall a b, (localeCompare a b < 0)%Z -> ~ (localeCompare b a < 0)%Z.

Lemma insertByName_sorted v : forall l,
  Sorted (inNameOrder localeCompare) l ->
  Sorted (inNameOrder localeCompare) (insertByName localeCompare v l).
Proof.
  induction l as [|u l IH]; intros Hs; cbn [insertByName].
  - repeat constructor.
  - inversion Hs as [|? ? Hl Hhd]; subst.
    destruct (localeCompare (name v) (name u) <? 0)%Z eqn:Hlt.
    + apply Z.ltb_lt in Hlt. constructor; [exact Hs|].
      constructor. unfold inNameOrder. now apply localeCompare_asym.
    + apply Z.ltb_ge in Hlt. constructor; [now apply IH|].
      destruct l as [|w l]; cbn [insertByName].
      * constructor. unfold inNameOrder. lia.
      * destruct (localeCompare (name v) (name w) <? 0)%Z.
        -- constructor. unfold inNameOrder. lia.
        -- inversion Hhd; subst. now constructor.
Qed.

Lemma sortByName_sorted : forall l,
  Sorted (inNameOrder localeCompare) (sortByName localeCompare l).
Proof.
  unfold sortByName. intros l.
  enough (H : forall acc, Sorted (inNameOrder localeCompare) acc ->
            Sorted (inNameOrder localeCompare)
              (fold_left (fun s v => insertByName localeCompare v s) l acc))
    by (apply H; constructor).
  induction l as [|v l IH]; intros acc Hacc; cbn [fold_left]; [exact Hacc|].
  apply IH. now apply insertByName_sorted.
Qed.

(** X11.  When the folder holds at least one file that passes the
    video test, the list the page keeps is made of exactly the files that
    pass it, each once, arranged so that no clip sorts by name before the
    one in front of it; each entry carries its file's name and duration 0,
    the page is in state IDLE and shows no error. *)
Theorem upload_lists_the_videos_in_name_order (files : list File) (s : AppModel) :
  existsb isVideo files = true ->
  let s' := fst (handleFolderUpload webkitRelativePath randomUUID createObjectURL
                   localeCompare (Some files) s) in
  Permutation (map file (videoFiles s')) (filter isVideo files) /\
  Sorted (inNameOrder localeCompare) (videoFiles s') /\
  Forall (fun v => name v = fileName (file v) /\ duration v = 0%Z) (videoFiles s') /\
  appState s' = IDLE /\ errorMsg s' = None.
Proof.
  intros Hsome s'.
  pose proof (filter_isVideo_nonempty files Hsome) as Hpos.
  destruct files as [|f files]; [discriminate|].
  unfold s', handleFolderUpload. cbv zeta.
  rewrite collect_length.
  destruct (length (filter isVideo (f :: files)) =? 0)%nat eqn:Hz;
    [apply Nat.eqb_eq in Hz; lia|].
  cbn [fst videoFiles appState errorMsg]. repeat split.
  - rewrite (Permutation_map file (sortByName_perm _)).
    now rewrite collect_files.
  - apply sortByName_sorted.
  - eapply Permutation_Forall; [symmetry; apply sortByName_perm|].
    apply collect_named. constructor.
Qed.

End Consistent.

(** X12.  An upload that brings no video (no file list, an empty one,
    or one in which no file passes the video test) leaves the list of
    clips, the state, the progress and the result as they were and creates
    no object URL; it sets the error message only when files were given. *)
Theorem upload_without_videos_keeps_the_page (files : option (list File)) (s : AppModel) :
  match files with Some l => existsb isVideo l = false | None => True end ->
  let run := handleFolderUpload webkitRelativePath randomUUID createObjectURL
               localeCompare files s in
  videoFiles (fst run) = videoFiles s /\
  appState (fst run) = appState s /\
  progress (fst run) = progress s /\
  resultBlob (fst run) = resultBlob s /\
  resultUrl (fst run) = resultUrl s /\
  snd run = [] /\
  errorMsg (fst run)
    = match files with
      | Some (_ :: _) => Some noVideosMessage
      | _ => None
      end.
Proof.
  intros Hnone. cbv zeta.
  destruct files as [[|f files]|]; [now repeat split| |now repeat split].
  unfold handleFolderUpload. cbv zeta.
  assert (Hc : collectVideos randomUUID createObjectURL (f :: files) [] = []).
  { apply length_zero_iff_nil.
    now rewrite collect_length, (filter_isVideo_empty _ Hnone). }
  rewrite Hc. now repeat split.
Qed.

End UploadFacts.

Lemma byLength_asym :
  forall a b, (byLength a b < 0)%Z -> ~ (byLength b a < 0)%Z.
Proof. unfold byLength. intros a b. lia. Qed.

Lemma upload_in_name_order_witness :
  let s' := fst (handleFolderUpload (fun _ => "holiday/clip") (fun _ => "id")
                   (fun k => decimal k) byLength (Some folderFiles) initialApp) in
  Permutation (map file (videoFiles s')) (filter isVideo folderFiles) /\
  Sorted (inNameOrder byLength) (videoFiles s') /\
  Forall (fun v => name v = fileName (file v) /\ duration v = 0%Z) (videoFiles s') /\
  appState s' = IDLE /\ errorMsg s' = None.
Proof.
  apply (upload_lists_the_videos_in_name_order (fun _ => "holiday/clip")
           (fun _ => "id") (fun k => decimal k) byLength byLength_asym
           folderFiles initialApp).
  reflexivity.
Defined.

Lemma upload_without_videos_witness :
  let run := handleFolderUpload (fun _ => "docs/notes.txt") (fun _ => "id")
               (fun k => decimal k) byLength
               (Some [ {| fileName := "notes.txt"; fileType := "text/plain" |} ])
               initialApp in
  videoFiles (fst run) = [] /\
  appState (fst run) = IDLE /\
  progress (fst run) = noProgress /\
  resultBlob (fst run) = None /\
  resultUrl (fst run) = None /\
  snd run = [] /\
  errorMsg (fst run) = Some noVideosMessage.
Proof.
  apply (upload_without_videos_keeps_the_page (fun _ => "docs/notes.txt")
           (fun _ => "id") (fun k => decimal k) byLength
           (Some [ {| fileName := "notes.txt"; fileType := "text/plain" |} ])
           initialApp).
  reflexivity.
Defined.

(** ** The file-name test *)

Lemma lower_append (a b : string) :
  lower (a ++ b) = (lower a ++ lower b)%string.
Proof.
  induction a as [|c a IH]; cbn [lower String.append]; [reflexivity|].
  now rewrite IH.
Qed.

Lemma length_append (a b : string) :
  String.length (a ++ b) = (String.length a + String.length b)%nat.
Proof.
  induction a as [|c a IH]; cbn [String.append String.length]; [reflexivity|].
  now rewrite IH.
Qed.

Lemma substring_all (b : string) : substring 0 (String.length b) b = b.
Proof.
  induction b as [|c b IH]; cbn [substring String.length]; [reflexivity|].
  now rewrite IH.
Qed.

Lemma substring_tail (a b : string) :
  substring (String.length a) (String.length b) (a ++ b) = b.
Proof.
  induction a as [|c a IH]; cbn [String.append String.length substring];
    [apply substring_all|exact IH].
Qed.

Lemma endsWith_append (a b : string) : endsWith (a ++ b) b = true.
Proof.
  unfold endsWith. rewrite length_append.
  replace (String.length a + String.length b - String.length b)%nat
    with (String.length a) by lia.
  rewrite substring_tail, String.eqb_refl.
  rewrite Bool.andb_true_r. apply Nat.leb_le. lia.
Qed.

(** X13.  A file whose name ends in a dot followed by mp4, mov, webm or
    mkv, written in any mix of upper and lower case, passes the video test
    whatever type the browser declares for it. *)
Theorem video_extension_is_accepted_in_any_letter_case
  (stem written type : string) :
  In (lower written) videoExtensions ->
  matchesVideoExtension (stem ++ "." ++ written) = true /\
  isVideo {| fileName := stem ++ "." ++ written; fileType := type |} = true.
Proof.
  intros Hin.
  assert (Hm : matchesVideoExtension (stem ++ "." ++ written) = true).
  { unfold matchesVideoExtension. apply existsb_exists.
    exists (lower written). split; [exact Hin|].
    rewrite !lower_append.
    change (lower ".") with ".".
    apply (endsWith_append (lower stem) ("." ++ lower written)). }
  split; [exact Hm|].
  unfold isVideo. cbn [fileName]. rewrite Hm. apply Bool.orb_true_r.
Qed.

Lemma video_extension_witness :
  matchesVideoExtension ("trip-part2" ++ "." ++ "MoV") = true /\
  isVideo {| fileName := "trip-part2" ++ "." ++ "MoV"; fileType := "" |} = true.
Proof.
  apply (video_extension_is_accepted_in_any_letter_case "trip-part2" "MoV" "").
  cbn. tauto.
Defined.

(** ** Starting the run *)

Lemma last_snoc {A} (l : list A) (x d : A) : last (l ++ [x]) d = x.
Proof. apply last_last. Qed.

Lemma expected_last : forall before total i v d,
  last (progressOf (expectedMilestones total i (before ++ [v]))) d
  = {| currentClipIndex := i + length before + 1; totalClips := total;
       statusMessage := processingMessage (i + length before + 1) (name v) |}.
Proof.
  induction before as [|u before IH]; intros total i v d.
  - cbn. now rewrite Nat.add_0_r.
  - cbn [app expectedMilestones progressOf flat_map length].
    fold (progressOf (expectedMilestones total (S i) (before ++ [v]))).
    assert (Hne : progressOf (expectedMilestones total (S i) (before ++ [v])) <> []).
    { destruct before; discriminate. }
    replace (i + S (length before))%nat with (S i + length before)%nat by lia.
    rewrite <- (IH total (S i) v d).
    destruct (progressOf (expectedMilestones total (S i) (before ++ [v])))
      as [|p ps]; [contradiction|reflexivity].
Qed.

Lemma firstn_succ_nth {A} : forall (l : list A) i v,
  nth_error l i = Some v -> firstn (S i) l = firstn i l ++ [v].
Proof.
  induction l as [|a l IH]; intros i v Hv; [destruct i; discriminate|].
  destruct i as [|i]; [injection Hv as ->; reflexivity|].
  cbn [firstn app]. f_equal. change (firstn (S i) l = firstn i l ++ [v]).
  now apply IH.
Qed.

Section StartFacts.
Variable host : Host.
Variable resultURL : string.
Variable domMessage : string -> string.

Lemma start_resolved (s : AppModel) (blob : Blob) :
  fst (stitchVideos host (videoFiles s)) = Resolved blob ->
  fst (handleStartProcessing host resultURL domMessage s)
    = mkApp COMPLETED (videoFiles s) (finalProgress (length (videoFiles s)))
            (Some blob) (Some resultURL) None (folderName s) /\
  (0 < length (videoFiles s))%nat.
Proof.
  intros Hres. unfold handleStartProcessing.
  destruct (videoFiles s) as [|v vs] eqn:Hv; [discriminate|].
  change (length (v :: vs) =? 0)%nat with false. cbv iota zeta.
  rewrite Hres. cbn [fst]. split; [|cbn; lia]. f_equal.
  destruct (context2d host) eqn:Hctx.
  2:{ destruct (stitchVideos_stopped_early host (v :: vs)) as [Ho _];
        [now right|].
      rewrite Ho in Hres. discriminate. }
  rewrite stitchVideos_running in * by (trivial; discriminate).
  cbv zeta in *.
  destruct (processClips_prefix host (v :: vs) (length (v :: vs)) 0 [])
    as (k & _ & Hm & _).
  destruct (fst (processClips _ _ _ _ _)) as [chunks| |]; try discriminate.
  cbn [snd]. unfold progressCalls.
  rewrite !milestones_app, setupTrace_milestones, Hm. cbn [app milestones].
  rewrite (proj2 (stopRecording_run _ _ _ _)).
  unfold progressOf. rewrite flat_map_app. cbn [flat_map app].
  apply last_snoc.
Qed.

(** X14.  When the run started from the page resolves, the page is in
    state COMPLETED with the blob and its URL, no error message, and the
    progress cell holds the final call: [currentClipIndex] equal to
    [totalClips], both the number of clips and not zero. *)
Theorem completed_page_holds_the_final_progress (s : AppModel) (blob : Blob) :
  fst (stitchVideos host (videoFiles s)) = Resolved blob ->
  fst (handleStartProcessing host resultURL domMessage s)
    = mkApp COMPLETED (videoFiles s) (finalProgress (length (videoFiles s)))
            (Some blob) (Some resultURL) None (folderName s) /\
  (0 < length (videoFiles s))%nat.
Proof. apply start_resolved. Qed.

(** X15.  When the video element of clip i reports an error, the
    drivers before it having resolved, the page goes to state ERROR and its
    message is the fixed prefix followed by 'Unknown error', whichever clip
    failed and with whatever error code; the clip is identified only by the
    progress cell, which holds the call made for clip i.  The list of clips
    and the earlier result are kept. *)
Theorem failed_clip_is_reported_as_unknown_error
  (s : AppModel) (i : nat) (v : VideoFile) (code : nat) :
  context2d host = true ->
  nth_error (videoFiles s) i = Some v ->
  (forall j w, (j < i)%nat -> nth_error (videoFiles s) j = Some w ->
               driverOutcome host j w = Resolved tt) ->
  driverOutcome host i v = Rejected (MediaErrorEvent code) ->
  fst (handleStartProcessing host resultURL domMessage s)
    = mkApp ERROR (videoFiles s)
            {| currentClipIndex := i + 1;
               totalClips := length (videoFiles s);
               statusMessage := processingMessage (i + 1) (name v) |}
            (resultBlob s) (resultUrl s)
            (Some (stitchErrorPrefix ++ "Unknown error")%string) (folderName s).
Proof.
  intros Hctx Hi Hbefore Hrej. unfold handleStartProcessing.
  assert (Hne : videoFiles s <> []) by (intros E; rewrite E in Hi; destruct i; discriminate).
  destruct (length (videoFiles s) =? 0)%nat eqn:Hz.
  { apply Nat.eqb_eq, length_zero_iff_nil in Hz. contradiction. }
  cbv zeta.
  destruct (processClips_rejected host (videoFiles s) (length (videoFiles s)) 0 []
              i v (MediaErrorEvent code)) as [Ho Hm]; trivial.
  rewrite stitchVideos_running by assumption. cbv zeta.
  rewrite Ho. cbn [fst snd]. f_equal.
  unfold progressCalls. rewrite milestones_app, setupTrace_milestones, Hm.
  cbn [app]. rewrite (firstn_succ_nth _ _ _ Hi), expected_last.
  assert (Hlen : length (firstn i (videoFiles s)) = i).
  { apply firstn_length_le. apply Nat.lt_le_incl, nth_error_Some. now rewrite Hi. }
  now rewrite Hlen.
Qed.

End StartFacts.

Lemma completed_page_witness :
  fst (handleStartProcessing goodHost "blob:result" (fun n => n)
         (mkApp IDLE [clipA; clipB] noProgress None None None None))
    = mkApp COMPLETED [clipA; clipB] (finalProgress 2)
        (Some {| blobData := [Byte.x1a; Byte.x45; Byte.x1a; Byte.x45; Byte.xdf];
                 blobType := "video/webm;codecs=vp9,opus" |})
        (Some "blob:result") None None /\
  (0 < 2)%nat.
Proof.
  apply (completed_page_holds_the_final_progress goodHost "blob:result"
           (fun n => n) (mkApp IDLE [clipA; clipB] noProgress None None None None)).
  reflexivity.
Defined.

Lemma failed_clip_witness :
  fst (handleStartProcessing secondFailsHost "blob:result" (fun n => n)
         (mkApp IDLE [clipA; clipB] noProgress None None None None))
    = mkApp ERROR [clipA; clipB]
        {| currentClipIndex := 2; totalClips := 2;
           statusMessage := processingMessage 2 "b.mov" |}
        None None (Some (stitchErrorPrefix ++ "Unknown error")%string) None.
Proof.
  apply (failed_clip_is_reported_as_unknown_error secondFailsHost "blob:result"
           (fun n => n) (mkApp IDLE [clipA; clipB] noProgress None None None None)
           1 clipB 3).
  - reflexivity.
  - reflexivity.
  - intros [|j] w Hj Hw; [injection Hw as <-; reflexivity|lia].
  - reflexivity.
Defined.

(** ** The download *)

Lemma extension_of_negotiated (supported : string -> bool) :
  extensionOf (negotiate supported)
  = if existsb supported (firstn 3 mimeTypes) then "mp4" else "webm".
Proof.
  rewrite negotiate_cases. cbn [firstn mimeTypes existsb].
  destruct (supported "video/mp4;codecs=avc1,mp4a.40.2"); [reflexivity|].
  destruct (supported "video/mp4;codecs=avc1"); [reflexivity|].
  destruct (supported "video/mp4"); [reflexivity|].
  destruct (supported "video/webm;codecs=h264"); [reflexivity|].
  destruct (supported "video/webm;codecs=vp9,opus"); reflexivity.
Qed.

(** X16.  After a run that resolved, the download is offered under the
    folder's name (or, without one, under 'stitched_video_' and the time),
    with the extension 'mp4' exactly when the host supports one of the
    three MP4 entries of the negotiation list, and 'webm' otherwise, also
    when the negotiated type is H.264 in a WebM container. *)
Theorem download_extension_follows_the_negotiated_container
  (host : Host) (resultURL : string) (domMessage : string -> string)
  (now : N) (s : AppModel) (blob : Blob) :
  truthy resultURL = true ->
  fst (stitchVideos host (videoFiles s)) = Resolved blob ->
  handleDownload now (fst (handleStartProcessing host resultURL domMessage s))
  = [Download resultURL
       ((match folderName s with
         | Some folder => if falsy folder then defaultDownloadName now else folder
         | None => defaultDownloadName now
         end)
        ++ "."
        ++ (if existsb (isTypeSupported host) (firstn 3 mimeTypes)
            then "mp4" else "webm"))%string].
Proof.
  intros Hurl Hres.
  destruct (start_resolved host resultURL domMessage s blob Hres) as [-> _].
  unfold handleDownload. cbn [resultUrl resultBlob folderName].
  unfold truthy in Hurl. apply Bool.negb_true_iff in Hurl. rewrite Hurl.
  rewrite (stitchVideos_resolved host _ blob Hres).
  cbn [newBlob blobType]. now rewrite extension_of_negotiated.
Qed.

Lemma download_extension_witness :
  handleDownload 1700000000000
    (fst (handleStartProcessing goodHost "blob:result" (fun n => n)
            (mkApp IDLE [clipA; clipB] noProgress None None None (Some "holiday"))))
  = [Download "blob:result" "holiday.webm"].
Proof.
  apply (download_extension_follows_the_negotiated_container goodHost
           "blob:result" (fun n => n) 1700000000000
           (mkApp IDLE [clipA; clipB] noProgress None None None (Some "holiday"))
           {| blobData := [Byte.x1a; Byte.x45; Byte.x1a; Byte.x45; Byte.xdf];
              blobType := "video/webm;codecs=vp9,opus" |}).
  - reflexivity.
  - reflexivity.
Defined.

(** ** Reset, the object URLs and the panels *)

Lemma created_pipeline (t : Trace) : createdURLs (map Pipeline t) = [].
Proof. induction t as [|e t IH]; [reflexivity|exact IH]. Qed.

Lemma created_previews (l : list VideoFile) :
  createdURLs (map (fun v => CreatePreviewURL (file v) (previewUrl v)) l)
  = map previewUrl l.
Proof.
  induction l as [|v l IH]; [reflexivity|].
  cbn [map createdURLs flat_map app]. f_equal. exact IH.
Qed.

Lemma revoked_previews (l : list VideoFile) :
  revokedURLs (map (fun v => RevokeURL (previewUrl v)) l) = map previewUrl l.
Proof.
  induction l as [|v l IH]; [reflexivity|].
  cbn [map revokedURLs flat_map app]. f_equal. exact IH.
Qed.

Lemma createdURLs_app (t u : list AppEffect) :
  createdURLs (t ++ u) = createdURLs t ++ createdURLs u.
Proof. apply flat_map_app. Qed.

Lemma revokedURLs_app (t u : list AppEffect) :
  revokedURLs (t ++ u) = revokedURLs t ++ revokedURLs u.
Proof. apply flat_map_app. Qed.

(** What a run started from the page adds to the URLs of the page. *)
Lemma start_urls host url message (s : AppModel) :
  truthy url = true ->
  let st := handleStartProcessing host url message s in
  videoFiles (fst st) = videoFiles s /\
  ((createdURLs (snd st) = [url] /\ resultUrl (fst st) = Some url) \/
   (createdURLs (snd st) = [] /\ resultUrl (fst st) = resultUrl s)).
Proof.
  intros Hurl. cbv zeta. unfold handleStartProcessing.
  destruct (length (videoFiles s) =? 0)%nat; [split; [reflexivity|now right]|].
  cbv zeta.
  destruct (fst (stitchVideos host (videoFiles s))); cbn [fst snd videoFiles resultUrl];
    (split; [reflexivity|]); rewrite ?createdURLs_app, created_pipeline.
  - now left.
  - now right.
  - now right.
Qed.

(** X17.  Over a cycle of the page that starts with no clips and no
    result (an upload, a run, a reset), the object URLs that the handlers
    created (one preview per accepted file, and the URL of the result when
    the run resolved) are exactly the ones that the reset revokes. *)
Theorem reset_revokes_the_urls_of_the_cycle
  (path : File -> string) (uuid urls : nat -> string)
  (compare : string -> string -> Z) (files : option (list File))
  (host : Host) (url : string) (message : string -> string) (s : AppModel) :
  videoFiles s = [] -> resultUrl s = None -> truthy url = true ->
  let up := handleFolderUpload path uuid urls compare files s in
  let st := handleStartProcessing host url message (fst up) in
  let rs := resetApp (fst st) in
  Permutation (createdURLs (snd up ++ snd st)) (revokedURLs (snd rs)).
Proof.
  intros Hv Hr Hurl up st rs.
  assert (Hup : Permutation (createdURLs (snd up)) (map previewUrl (videoFiles (fst up)))
                /\ resultUrl (fst up) = resultUrl s).
  { unfold up, handleFolderUpload.
    destruct files as [[|f files]|]; cbn [fst snd videoFiles resultUrl];
      rewrite ?Hv; try (split; reflexivity).
    cbv zeta.
    destruct (length (collectVideos uuid urls (f :: files) []) =? 0)%nat eqn:Hz;
      cbn [fst snd videoFiles resultUrl]; rewrite created_previews.
    - apply Nat.eqb_eq, length_zero_iff_nil in Hz. rewrite Hz.
      split; reflexivity.
    - split; [|reflexivity].
      apply Permutation_map. symmetry. apply sortByName_perm. }
  destruct Hup as [Hcreated Hsame].
  destruct (start_urls host url message (fst up) Hurl) as [Hvid Hst].
  fold st in Hvid, Hst.
  unfold rs, resetApp. cbn [snd].
  rewrite createdURLs_app, revokedURLs_app, revoked_previews, Hvid.
  apply Permutation_app; [exact Hcreated|].
  unfold truthy in Hurl. apply Bool.negb_true_iff in Hurl.
  destruct Hst as [[-> ->]|[-> ->]].
  - rewrite Hurl. reflexivity.
  - rewrite Hsame, Hr. reflexivity.
Qed.

Lemma reset_revokes_witness :
  let up := handleFolderUpload (fun _ => "holiday/clip") (fun _ => "id")
              (fun k => decimal k) byLength (Some folderFiles) initialApp in
  let st := handleStartProcessing goodHost "blob:result" (fun n => n) (fst up) in
  let rs := resetApp (fst st) in
  Permutation (createdURLs (snd up ++ snd st)) (revokedURLs (snd rs)).
Proof.
  apply (reset_revokes_the_urls_of_the_cycle (fun _ => "holiday/clip")
           (fun _ => "id") (fun k => decimal k) byLength (Some folderFiles)
           goodHost "blob:result" (fun n => n) initialApp).
  - reflexivity.
  - reflexivity.
  - reflexivity.
Defined.

Lemma reachable_renderable (s : AppModel) : reachable s -> renderable s.
Proof.
  induction 1 as [|s path uuid urls compare files _ IH
                  |s host url message _ IH Hurl|s _ IH]; unfold renderable in *.
  - exact I.
  - unfold handleFolderUpload.
    destruct files as [[|f files]|]; cbn [fst appState resultUrl]; trivial.
    cbv zeta. destruct (length (collectVideos _ _ _ _) =? 0)%nat;
      cbn [fst appState resultUrl]; trivial.
  - unfold handleStartProcessing.
    destruct (length (videoFiles s) =? 0)%nat; [exact IH|]. cbv zeta.
    destruct (fst (stitchVideos host (videoFiles s)));
      cbn [fst appState resultUrl]; trivial.
    now exists url.
  - exact I.
Qed.

(** X18.  In every state the page can reach through its handlers
    exactly one of the five panels is rendered, and the state is never
    UPLOADING. *)
Theorem exactly_one_panel_is_rendered (s : AppModel) :
  reachable s ->
  (exists p, panels s = [p]) /\ appState s <> UPLOADING.
Proof.
  intros Hreach. apply reachable_renderable in Hreach.
  unfold renderable in Hreach. unfold panels.
  destruct (appState s) eqn:Hstate; cbn [isState andb shownIf app].
  - split; [|discriminate].
    destruct (videoFiles s) as [|v vs]; cbn; eauto.
  - contradiction.
  - split; [|discriminate]. rewrite Bool.andb_false_r. cbn. eauto.
  - split; [|discriminate]. rewrite Bool.andb_false_r.
    destruct Hreach as (url & -> & ->). cbn. eauto.
  - split; [|discriminate]. rewrite Bool.andb_false_r. cbn. eauto.
Qed.

Lemma exactly_one_panel_witness :
  (exists p,
     panels (fst (handleStartProcessing secondStallsHost "blob:result" (fun n => n)
                    (fst (handleFolderUpload (fun _ => "") (fun _ => "id")
                            (fun k => decimal k) byLength (Some folderFiles)
                            initialApp)))) = [p]) /\
  appState (fst (handleStartProcessing secondStallsHost "blob:result" (fun n => n)
                   (fst (handleFolderUpload (fun _ => "") (fun _ => "id")
                           (fun k => decimal k) byLength (Some folderFiles)
                           initialApp)))) <> UPLOADING.
Proof.
  apply exactly_one_panel_is_rendered.
  apply reach_start; [|reflexivity].
  apply reach_upload. apply reach_initial.
Defined.

(** X19.  After a run that was rejected the page shows the error panel
    with the message of the run; the reset then leads to the upload panel,
    and the upload panel still shows that message, since the reset clears
    every cell of the state but [errorMsg]. *)
Theorem message_of_a_failed_run_survives_the_reset
  (host : Host) (url : string) (message : string -> string)
  (s : AppModel) (err : JsValue) :
  videoFiles s <> [] ->
  fst (stitchVideos host (videoFiles s)) = Rejected err ->
  let failed := fst (handleStartProcessing host url message s) in
  let again := fst (resetApp failed) in
  panels failed = [ErrorPanel] /\
  panels again = [UploadPanel] /\
  shownError failed = Some (stitchErrorPrefix ++ shownMessage message err)%string /\
  shownError again = shownError failed /\
  again = mkApp IDLE [] noProgress None None
            (Some (stitchErrorPrefix ++ shownMessage message err)%string) None.
Proof.
  intros Hne Hrej. cbv zeta. unfold handleStartProcessing.
  destruct (length (videoFiles s) =? 0)%nat eqn:Hz.
  { apply Nat.eqb_eq, length_zero_iff_nil in Hz. contradiction. }
  cbv zeta. rewrite Hrej. cbn [fst resetApp].
  unfold panels, shownError.
  cbn [appState videoFiles errorMsg isState andb orb shownIf app length Nat.eqb].
  rewrite Bool.andb_false_r. cbn [shownIf app orb].
  repeat split.
Qed.

Lemma failed_run_witness :
  let failed := fst (handleStartProcessing secondFailsHost "blob:result" (fun n => n)
                       (mkApp IDLE [clipA; clipB] noProgress None None None None)) in
  let again := fst (resetApp failed) in
  panels failed = [ErrorPanel] /\
  panels again = [UploadPanel] /\
  shownError failed
    = Some (stitchErrorPrefix ++ shownMessage (fun n => n) (MediaErrorEvent 3))%string /\
  shownError again = shownError failed /\
  again = mkApp IDLE [] noProgress None None
            (Some (stitchErrorPrefix
                   ++ shownMessage (fun n => n) (MediaErrorEvent 3))%string) None.
Proof.
  apply (message_of_a_failed_run_survives_the_reset secondFailsHost "blob:result"
           (fun n => n) (mkApp IDLE [clipA; clipB] noProgress None None None None)
           (MediaErrorEvent 3)).
  - discriminate.
  - reflexivity.
Defined.

(** ** A run that does not finish, and a run that cannot start *)

(** X20.  When the video element of clip i never lets its driver settle,
    the drivers before it having resolved, the page stays in state
    PROCESSING: it renders the processing panel alone, with the call made
    for clip i in the progress cell, and keeps the earlier result and no
    error message. *)
Theorem stalled_clip_keeps_the_page_processing
  (host : Host) (url : string) (message : string -> string)
  (s : AppModel) (i : nat) (v : VideoFile) :
  context2d host = true ->
  nth_error (videoFiles s) i = Some v ->
  (forall j w, (j < i)%nat -> nth_error (videoFiles s) j = Some w ->
               driverOutcome host j w = Resolved tt) ->
  driverOutcome host i v = Pending ->
  let stalled := fst (handleStartProcessing host url message s) in
  stalled = mkApp PROCESSING (videoFiles s)
              {| currentClipIndex := i + 1;
                 totalClips := length (videoFiles s);
                 statusMessage := processingMessage (i + 1) (name v) |}
              (resultBlob s) (resultUrl s) None (folderName s) /\
  panels stalled = [ProcessingPanel].
Proof.
  intros Hctx Hi Hbefore Hpend.
  assert (Hne : videoFiles s <> [])
    by (intros E; rewrite E in Hi; destruct i; discriminate).
  assert (Hst : fst (handleStartProcessing host url message s)
                = mkApp PROCESSING (videoFiles s)
                    {| currentClipIndex := i + 1;
                       totalClips := length (videoFiles s);
                       statusMessage := processingMessage (i + 1) (name v) |}
                    (resultBlob s) (resultUrl s) None (folderName s)).
  { unfold handleStartProcessing.
    destruct (length (videoFiles s) =? 0)%nat eqn:Hz.
    { apply Nat.eqb_eq, length_zero_iff_nil in Hz. contradiction. }
    cbv zeta.
    destruct (processClips_pending host (videoFiles s) (length (videoFiles s)) 0 []
                i v) as [Ho Hm]; trivial.
    rewrite stitchVideos_running by assumption. cbv zeta.
    rewrite Ho. cbn [fst snd]. f_equal.
    unfold progressCalls. rewrite milestones_app, setupTrace_milestones, Hm.
    cbn [app]. rewrite (firstn_succ_nth _ _ _ Hi), expected_last.
    assert (Hlen : length (firstn i (videoFiles s)) = i).
    { apply firstn_length_le. apply Nat.lt_le_incl, nth_error_Some.
      now rewrite Hi. }
    now rewrite Hlen. }
  cbv zeta. rewrite Hst. split; [reflexivity|].
  unfold panels. cbn [appState isState andb shownIf app].
  now rewrite Bool.andb_false_r.
Qed.

Lemma stalled_clip_witness :
  let stalled := fst (handleStartProcessing secondStallsHost "blob:result"
                        (fun n => n)
                        (mkApp IDLE [clipA; clipB] noProgress None None None None)) in
  stalled = mkApp PROCESSING [clipA; clipB]
              {| currentClipIndex := 2; totalClips := 2;
                 statusMessage := processingMessage 2 "b.mov" |}
              None None None None /\
  panels stalled = [ProcessingPanel].
Proof.
  apply (stalled_clip_keeps_the_page_processing secondStallsHost "blob:result"
           (fun n => n) (mkApp IDLE [clipA; clipB] noProgress None None None None)
           1 clipB).
  - reflexivity.
  - reflexivity.
  - intros [|j] w Hj Hw; [injection Hw as <-; reflexivity|lia].
  - reflexivity.
Defined.

(** X21.  When the canvas gives no 2D context, a run started from the
    page with clips ends in state ERROR with the message of the thrown
    error after the fixed prefix; [onProgress] was never called, so the
    progress cell is as it was, and nothing of the run is kept. *)
Theorem missing_context_is_reported_by_its_message
  (host : Host) (url : string) (message : string -> string) (s : AppModel) :
  videoFiles s <> [] -> context2d host = false ->
  handleStartProcessing host url message s
  = (mkApp ERROR (videoFiles s) (progress s) (resultBlob s) (resultUrl s)
           (Some (stitchErrorPrefix ++ "Could not create canvas context")%string)
           (folderName s),
     [Pipeline (CreateCanvas CANVAS_WIDTH CANVAS_HEIGHT); Pipeline GetContext2d;
      ConsoleError (JsError "Could not create canvas context")]).
Proof.
  intros Hne Hctx. unfold handleStartProcessing.
  destruct (stitchVideos_stopped_early host (videoFiles s)) as [Ho Ht];
    [now right|].
  destruct (length (videoFiles s) =? 0)%nat eqn:Hz.
  { apply Nat.eqb_eq, length_zero_iff_nil in Hz. contradiction. }
  cbv zeta. rewrite Ho, Ht. reflexivity.
Qed.

Lemma missing_context_page_witness :
  handleStartProcessing bareHost "blob:result" (fun n => n)
    (mkApp IDLE [clipA] noProgress None None None None)
  = (mkApp ERROR [clipA] noProgress None None
           (Some (stitchErrorPrefix ++ "Could not create canvas context")%string)
           None,
     [Pipeline (CreateCanvas CANVAS_WIDTH CANVAS_HEIGHT); Pipeline GetContext2d;
      ConsoleError (JsError "Could not create canvas context")]).
Proof.
  apply (missing_context_is_reported_by_its_message bareHost "blob:result"
           (fun n => n) (mkApp IDLE [clipA] noProgress None None None None)).
  - discriminate.
  - reflexivity.
Defined.
